(** * The response-parsing and safe-apply pipeline of the AI terminal add-on

    A shallow embedding of
    - [src/app/ai_agent.py]                          ([AIAgent]),
    - [src/ai-terminal/app/agents/base_agent.py]     ([BaseAgent]),
    - [src/ai-terminal/app/config_manager.py]        ([ConfigManager]),
    - [src/ai-terminal/app/yaml_tools.py]            ([YAMLHandler]),
    together with the properties of the specification that concern them. *)

From Stdlib Require Import Strings.String Strings.Ascii.
From stdpp Require Import base option list gmap strings fin_maps.

Local Open Scope string_scope.
Local Open Scope list_scope.

(** ** Python strings

    A Python [str] is modelled as a [string]; every [ascii] stands for
    the code point of the same number (0 to 255). *)

Module Py.

(** [c.isspace()] for a code point below 256. *)
Definition isspace (c : ascii) : bool :=
  let n := nat_of_ascii c in
  (((9 <=? n) && (n <=? 13)) || ((28 <=? n) && (n <=? 32))
   || (n =? 133) || (n =? 160))%nat.

(** [s.lstrip()]. *)
Fixpoint lstrip (s : string) : string :=
  match s with
  | String c s' => if isspace c then lstrip s' else s
  | EmptyString => EmptyString
  end.

(** [s.rstrip()]: a character is kept unless it is white space and
    nothing but white space follows it. *)
Fixpoint rstrip (s : string) : string :=
  match s with
  | String c s' =>
      match rstrip s' with
      | EmptyString => if isspace c then EmptyString else String c EmptyString
      | r => String c r
      end
  | EmptyString => EmptyString
  end.

(** [s.strip()]. *)
Definition strip (s : string) : string := rstrip (lstrip s).

(** [s.startswith(p)]. *)
Definition startswith (s p : string) : bool := String.prefix p s.

(** [s.replace(old, new)] for a non-empty [old]: occurrences are found
    from the left and do not overlap.  [skip] counts the characters of a
    matched occurrence that are still to be dropped. *)
Fixpoint replace_go (old new : string) (skip : nat) (s : string) : string :=
  match s with
  | EmptyString => EmptyString
  | String c s' =>
      match skip with
      | S k => replace_go old new k s'
      | O =>
          if String.prefix old s
          then new +:+ replace_go old new (String.length old - 1) s'
          else String c (replace_go old new 0 s')
      end
  end.

Definition replace (s old new : string) : string := replace_go old new 0 s.

(** [s.split(sep)] for a one-character separator: [cur] is the field
    being read. *)
Fixpoint split_go (sep : ascii) (cur : string) (s : string) : list string :=
  match s with
  | EmptyString => [cur]
  | String c s' =>
      if Ascii.eqb c sep then cur :: split_go sep EmptyString s'
      else split_go sep (cur +:+ String c EmptyString) s'
  end.

Definition split (s : string) (sep : ascii) : list string :=
  split_go sep EmptyString s.

(** [s.split()]: the maximal runs of characters that are not white
    space. *)
Fixpoint split_ws_go (cur : string) (s : string) : list string :=
  match s with
  | EmptyString =>
      match cur with EmptyString => [] | _ => [cur] end
  | String c s' =>
      if isspace c
      then match cur with
           | EmptyString => split_ws_go EmptyString s'
           | _ => cur :: split_ws_go EmptyString s'
           end
      else split_ws_go (cur +:+ String c EmptyString) s'
  end.

Definition split_ws (s : string) : list string := split_ws_go EmptyString s.

(** [c not in s]. *)
Fixpoint lacks (c : ascii) (s : string) : bool :=
  match s with
  | EmptyString => true
  | String x s' => negb (Ascii.eqb x c) && lacks c s'
  end.

(** [sep.join(l)]. *)
Fixpoint join (sep : string) (l : list string) : string :=
  match l with
  | [] => EmptyString
  | [x] => x
  | x :: rest => x +:+ sep +:+ join sep rest
  end.

(** The line feed, and the truth value of a string. *)
Definition LF : ascii := ascii_of_nat 10.
Definition nl : string := String LF EmptyString.

Definition truthy (s : string) : bool :=
  match s with EmptyString => false | _ => true end.

(** Exceptions raised by the modelled code. *)
Inductive exn : Type :=
| IndexError
| ValueError
| PermissionError (msg : string)
| FileNotFoundError (path : string)
| MarkupError (msg : string).

End Py.

(** ** Python dictionaries with string keys

    A [dict] keeps its keys in insertion order; assigning to a key that
    is present replaces the value where it stands, assigning to a new
    key appends. *)

Module Dict.

Section Operations.
Context {V : Type}.

(** [d.get(k)], also used for [d[k]] on a key that is present. *)
Fixpoint get (k : string) (d : list (string * V)) : option V :=
  match d with
  | [] => None
  | (k', v) :: d' => if String.eqb k k' then Some v else get k d'
  end.

(** [d[k] = v]. *)
Fixpoint put (k : string) (v : V) (d : list (string * V)) : list (string * V) :=
  match d with
  | [] => [(k, v)]
  | (k', v') :: d' =>
      if String.eqb k k' then (k, v) :: d' else (k', v') :: put k v d'
  end.

Definition keys (d : list (string * V)) : list string := d.*1.

End Operations.

End Dict.

(** [k in l] for a list of strings. *)
Definition str_in (k : string) (l : list string) : bool :=
  existsb (String.eqb k) l.

(** ** Paths, files and the outside world

    A path is the string [str(path)].  [joinpath] and [name] are those of
    [pathlib] for a directory given in normal form and a plain file name
    (predicate [plain]: not empty, not ["."], no separator), which is
    what the allow-list holds; [pathlib] would also collapse empty and
    ["."] components of other names, which is not modelled. *)

Module OS.

(** [Path(dir) / name]. *)
Definition joinpath (dir name : string) : string := dir +:+ "/" +:+ name.

(** A plain file name: not empty, not ["."], without separator. *)
Definition plain (s : string) : bool :=
  Py.truthy s && negb (String.eqb s ".") && Py.lacks "/" s.

(** [path.name]: what follows the last separator. *)
Definition name (path : string) : string :=
  List.last (Py.split path "/") EmptyString.

(** [path.parent] followed by the separator: the path without its name. *)
Definition parent_sep (path : string) : string :=
  String.substring 0 (String.length path - String.length (name path)) path.

(** [str(path.parent)]. *)
Definition parent (path : string) : string :=
  match parent_sep path with
  | EmptyString => "."
  | String _ EmptyString => "/"
  | p => String.substring 0 (String.length p - 1) p
  end.

(** [s.rfind(".")]. *)
Fixpoint rfind_dot (i : nat) (s : string) : option nat :=
  match s with
  | EmptyString => None
  | String c s' =>
      match rfind_dot (S i) s' with
      | Some j => Some j
      | None => if Ascii.eqb c "." then Some i else None
      end
  end.

(** [path.suffix]: the last dot of the name and what follows it, unless
    that dot is the first or the last character. *)
Definition suffix (path : string) : string :=
  let n := name path in
  match rfind_dot 0 n with
  | Some i =>
      if (0 <? i)%nat && (i <? String.length n - 1)%nat
      then String.substring i (String.length n - i) n
      else EmptyString
  | None => EmptyString
  end.

(** [path.with_suffix(sfx)], which raises [ValueError] on an empty name. *)
Definition with_suffix (path sfx : string) : Py.exn + string :=
  let n := name path in
  if negb (Py.truthy n) then inl Py.ValueError
  else
    let old_suffix := suffix path in
    let stem := String.substring 0 (String.length n - String.length old_suffix) n in
    inr (parent_sep path +:+ stem +:+ sfx).

(** What the program does to the outside world, in order. *)
Inductive event : Type :=
| Mkdir (path : string)
| WriteText (path content : string)
| Copy (src dst : string)
| CheckConfig (valid : option bool).

(** The files (path to content), the events so far and the number of
    clock readings so far.  Directories are not part of [fs]: making
    one is an event and nothing more. *)
Record world : Type := World {
  fs : gmap string string;
  log : list event;
  ticks : nat
}.

(** What the program cannot decide itself: the formatted reading
    [datetime.now().strftime('%Y%m%d_%H%M%S')] of the n-th look at the
    clock, the answer of [Confirm.ask] to a prompt, and the outcome of
    the n-th [ha_interface.check_config()] ([None]: it raised). *)
Record oracle : Type := Oracle {
  clock : nat → string;
  ask : string → bool;
  check_config : nat → option bool
}.

(** State and exceptions. *)
Definition M (A : Type) : Type := world → (Py.exn + A) * world.

#[global] Instance M_ret : MRet M := λ A x w, (inr x, w).
#[global] Instance M_bind : MBind M := λ A B f m w,
  match m w with
  | (inr x, w') => f x w'
  | (inl e, w') => (inl e, w')
  end.

Definition raise {A : Type} (e : Py.exn) : M A := λ w, (inl e, w).

Definition lift {A : Type} (r : Py.exn + A) : M A := λ w, (r, w).

Definition emit (e : event) (w : world) : world :=
  World (fs w) (log w ++ [e]) (ticks w).

(** [path.exists()]. *)
Definition exists_ (path : string) : M bool :=
  λ w, (inr (bool_decide (is_Some (fs w !! path))), w).

(** [path.mkdir(parents=True, exist_ok=True)]. *)
Definition mkdir (path : string) : M unit :=
  λ w, (inr (), emit (Mkdir path) w).

(** [path.write_text(content)]. *)
Definition write_text (path content : string) : M unit :=
  λ w, (inr (),
        World (<[path := content]> (fs w)) (log w ++ [WriteText path content])
              (ticks w)).

(** The directory [dir_sep] exists; it is given with the separator at
    its end, as [parent_sep] gives the directory of a path, and the empty
    string is the current directory.  It exists when a file lies under
    it, or an earlier [mkdir] made it, or made a directory under it and
    so its parents.  The modelled code removes no file and no
    directory. *)
Definition isdir (w : world) (dir_sep : string) : bool :=
  negb (Py.truthy dir_sep)
  || existsb (λ kv, Py.startswith kv.1 dir_sep) (map_to_list (fs w))
  || existsb (λ e, match e with
                   | Mkdir p => Py.startswith (p +:+ "/") dir_sep
                   | _ => false
                   end) (log w).

(** [path.write_text(content)] where the program made no directory
    before: [FileNotFoundError] unless the directory of [path] exists. *)
Definition write_text_at (path content : string) : M unit :=
  λ w, if isdir w (parent_sep path) then write_text path content w
       else (inl (Py.FileNotFoundError path), w).

(** [shutil.copy(src, dst)] and [shutil.copy2(src, dst)]. *)
Definition copy (src dst : string) : M unit :=
  λ w, match fs w !! src with
       | Some bytes =>
           (inr (),
            World (<[dst := bytes]> (fs w)) (log w ++ [Copy src dst]) (ticks w))
       | None => (inl (Py.FileNotFoundError src), w)
       end.

(** [datetime.now().strftime('%Y%m%d_%H%M%S')]. *)
Definition now (o : oracle) : M string :=
  λ w, (inr (clock o (ticks w)), World (fs w) (log w) (S (ticks w))).

(** How often the configuration was checked so far. *)
Fixpoint count_checks (l : list event) : nat :=
  match l with
  | [] => 0
  | CheckConfig _ :: l' => S (count_checks l')
  | _ :: l' => count_checks l'
  end.

(** [ha_interface.check_config()], caught as in [_validate_config]. *)
Definition ha_check_config (o : oracle) : M (option bool) :=
  λ w, let r := check_config o (count_checks (log w)) in
       (inr r, emit (CheckConfig r) w).

(** [for x in l: acc = body(acc, x)]. *)
Fixpoint for_each {A B : Type} (body : B → A → M B) (l : list A) (acc : B) : M B :=
  match l with
  | [] => mret acc
  | x :: l' => acc' ← body acc x; for_each body l' acc'
  end.

End OS.

(** ** Printing with rich

    [console.print] of a string, a [Panel] of a string and the title of
    a [Panel] read square brackets as markup, and raise [MarkupError] on
    a closing tag that closes nothing.  The grammar of the markup is
    rich's own: [rich text] is its verdict on [text], the message of the
    error or [None] when the text is printed.  What is printed is not
    part of the world. *)

Module Rich.

Definition markup : Type := string → option string.

Definition print (rich : markup) (text : string) : OS.M unit :=
  match rich text with
  | Some msg => OS.raise (Py.MarkupError msg)
  | None => mret ()
  end.

End Rich.

(** ** [YAMLHandler]: writing a file (yaml_tools.py) *)

Module YAMLHandler.

(** [write_file(filepath, content)]. *)
Definition write_file (filepath content : string) : OS.M unit :=
  OS.mkdir (OS.parent filepath);;
  OS.write_text filepath content.

End YAMLHandler.

(** ** [ConfigManager] (config_manager.py) *)

Module ConfigManager.

Record t : Type := Make {
  config_dir : string;
  backup_dir : string;
  sandbox_dir : string;
  allowed_files : list string
}.

Definition is_file_allowed (self : t) (filename : string) : bool :=
  str_in filename (allowed_files self).

(** [get_file_path]; the path is that of [pathlib] for a plain
    [filename] ([OS.plain]). *)
Definition get_file_path (self : t) (filename : string) : Py.exn + string :=
  if negb (is_file_allowed self filename)
  then inl (Py.PermissionError ("Soubor '" +:+ filename +:+ "' neni v whitelistu."))
  else inr (OS.joinpath (config_dir self) filename).

(** [create_backup]; the copy goes into [backup_dir], which [__init__]
    made. *)
Definition create_backup (self : t) (o : OS.oracle) (filename : string)
  : OS.M (option string) :=
  let filepath := OS.joinpath (config_dir self) filename in
  ex ← OS.exists_ filepath;
  if negb ex then mret None
  else
    timestamp ← OS.now o;
    let backup_name := filename +:+ "." +:+ timestamp +:+ ".bak" in
    let backup_path := OS.joinpath (backup_dir self) backup_name in
    OS.copy filepath backup_path;;
    mret (Some backup_path).

(** [write_file]; nothing here makes the directory of the file, so the
    write raises when [config_dir] does not exist. *)
Definition write_file (self : t) (o : OS.oracle) (filename content : string)
    (create_backup_flag : bool) : OS.M string :=
  filepath ← OS.lift (get_file_path self filename);
  ex ← OS.exists_ filepath;
  (if create_backup_flag && ex
   then create_backup self o filename;; mret ()
   else mret ());;
  OS.write_text_at filepath content;;
  mret filepath.

Definition write_to_sandbox (self : t) (filename content : string) : OS.M string :=
  let sandbox_path := OS.joinpath (sandbox_dir self) filename in
  OS.write_text sandbox_path content;;
  mret sandbox_path.

(** [".".join(backup_name.split(".")[:-2])]. *)
Definition original_name (backup_name : string) : string :=
  let segments := Py.split backup_name "." in
  Py.join "." (take (length segments - 2) segments).

Definition restore_backup (self : t) (o : OS.oracle) (backup_path : string)
  : OS.M string :=
  let backup_name := OS.name backup_path in
  let original_name := original_name backup_name in
  if negb (is_file_allowed self original_name)
  then OS.raise (Py.PermissionError
                   ("Soubor '" +:+ original_name +:+ "' neni v whitelistu."))
  else
    let target_path := OS.joinpath (config_dir self) original_name in
    ex ← OS.exists_ target_path;
    (if ex : bool
     then create_backup self o original_name;; mret ()
     else mret ());;
    OS.copy backup_path target_path;;
    mret target_path.

End ConfigManager.

(** ** [BaseAgent.extract_yaml_from_response] (agents/base_agent.py) *)

Module BaseAgent.

(** [_get_allowed_files]; [files_str] is
    [os.environ.get("ALLOWED_FILES", "")]. *)
Definition _get_allowed_files (files_str : string) : list string :=
  if negb (Py.truthy files_str)
  then ["automations.yaml"; "scripts.yaml"; "scenes.yaml"; "sensors.yaml";
        "binary_sensors.yaml"; "switches.yaml"; "groups.yaml";
        "input_booleans.yaml"; "input_numbers.yaml"; "input_selects.yaml";
        "input_texts.yaml"; "input_datetimes.yaml"]
  else List.filter Py.truthy (map Py.strip (Py.split files_str ",")).

(** The local variables of the loop. *)
Record locals : Type := Locals {
  files : list (string * string);
  current_file : option string;
  current_content : list string;
  in_yaml : bool
}.

(** [current_file and current_content]. *)
Definition pending (st : locals) : option string :=
  match current_file st, current_content st with
  | Some f, _ :: _ => if Py.truthy f then Some f else None
  | _, _ => None
  end.

(** [if current_file and current_content: files[current_file] = ...]. *)
Definition flush (st : locals) : list (string * string) :=
  match pending st with
  | Some f => Dict.put f (Py.join Py.nl (current_content st)) (files st)
  | None => files st
  end.

(** One turn of the loop; [split()[0]] raises [IndexError] when nothing
    follows the marker. *)
Definition step (st : locals) (line : string) : Py.exn + locals :=
  if Py.startswith (Py.strip line) "# FILE:" then
    match Py.split_ws (Py.strip (Py.replace line "# FILE:" EmptyString)) with
    | tok :: _ => inr (Locals (flush st) (Some tok) [] true)
    | [] => inl Py.IndexError
    end
  else if Py.startswith (Py.strip line) "```yaml" then
    inr (Locals (files st) (current_file st) (current_content st) true)
  else if String.eqb (Py.strip line) "```" && in_yaml st then
    inr (Locals (flush st) None [] false)
  else if in_yaml st then
    inr (Locals (files st) (current_file st) (current_content st ++ [line])
                (in_yaml st))
  else inr st.

Fixpoint loop (st : locals) (lines : list string) : Py.exn + locals :=
  match lines with
  | [] => inr st
  | line :: rest =>
      match step st line with
      | inr st' => loop st' rest
      | inl e => inl e
      end
  end.

Definition init : locals := Locals [] None [] false.

Definition extract_yaml_from_response (response : string)
  : Py.exn + list (string * string) :=
  match loop init (Py.split response Py.LF) with
  | inr st => inr (flush st)
  | inl e => inl e
  end.

End BaseAgent.

(** ** [AIAgent] (app/ai_agent.py) *)

Module AIAgent.

(** The fields set by [__init__] from the environment. *)
Record t : Type := Make {
  mode : string;
  backup_enabled : bool;
  sandbox_enabled : bool;
  sandbox_dir : string;
  allowed_files : list string;
  backup_dir : string
}.

(** The agent built when no environment variable is set. *)
Definition default : t :=
  Make "dry_run" true true "/config/ai_sandbox"
       ["automations.yaml"; "scripts.yaml"; "scenes.yaml"]
       "/config/.ai_backups".

(** [_parse_allowed_files]; [files_str] is
    [os.environ.get("ALLOWED_FILES", "")]. *)
Definition _parse_allowed_files (files_str : string) : list string :=
  if negb (Py.truthy files_str)
  then ["automations.yaml"; "scripts.yaml"; "scenes.yaml"]
  else List.filter Py.truthy (map Py.strip (Py.split files_str ",")).

(** The local variables of the loop of [_parse_response]. *)
Record locals : Type := Locals {
  files : list (string * string);
  current_file : option string;
  current_content : list string;
  in_yaml_block : bool
}.

(** [current_file and current_content]. *)
Definition pending (st : locals) : option string :=
  match current_file st, current_content st with
  | Some f, _ :: _ => if Py.truthy f then Some f else None
  | _, _ => None
  end.

(** [in_yaml_block and current_file]. *)
Definition capturing (st : locals) : bool :=
  in_yaml_block st &&
  match current_file st with Some f => Py.truthy f | None => false end.

Definition flush (st : locals) : list (string * string) :=
  match pending st with
  | Some f => Dict.put f (Py.join Py.nl (current_content st)) (files st)
  | None => files st
  end.

(** One turn of the loop. *)
Definition step (st : locals) (line : string) : locals :=
  if Py.startswith (Py.strip line) "# FILE:" then
    Locals (flush st)
           (Some (Py.strip (Py.replace line "# FILE:" EmptyString))) [] true
  else if Py.startswith (Py.strip line) "```yaml" then
    Locals (files st) (current_file st) (current_content st) true
  else if String.eqb (Py.strip line) "```" && in_yaml_block st then
    match pending st with
    | Some _ => Locals (flush st) None [] false
    | None => Locals (files st) (current_file st) (current_content st) false
    end
  else if capturing st then
    Locals (files st) (current_file st) (current_content st ++ [line])
           (in_yaml_block st)
  else st.

Definition init : locals := Locals [] None [] false.

(** The loop and the flush of the last file: the dictionary [files]
    before it is filtered. *)
Definition captured (response : string) : list (string * string) :=
  flush (fold_left step (Py.split response Py.LF) init).

(** [_parse_response]: the captured files, kept only when their name is
    in [allowed_files]. *)
Definition _parse_response (self : t) (response : string)
  : list (string * string) :=
  List.filter (λ kv, str_in kv.1 (allowed_files self)) (captured response).

(** An entry of [results["files"]], and [results]. *)
Record entry : Type := Entry {
  file : string;
  action : string;
  path : option string
}.

Record results : Type := Results {
  success : bool;
  result_files : list entry;
  result_mode : option string
}.

(** [_validate_config]: the outcome is printed, and an exception of the
    check is caught. *)
Definition _validate_config (o : OS.oracle) : OS.M unit :=
  OS.ha_check_config o;; mret ().

(** The body of the loop of [_apply_changes] for one item of [files];
    [acc] is [results["files"]]. *)
Definition apply_file (self : t) (o : OS.oracle) (acc : list entry)
    (item : string * string) : OS.M (list entry) :=
  let filename := item.1 in
  let content := item.2 in
  let filepath := OS.joinpath "/config" filename in
  if String.eqb (mode self) "read_only" then
    mret (acc ++ [Entry filename "displayed" None])
  else if String.eqb (mode self) "dry_run" then
    ai_filepath ← OS.lift (OS.with_suffix filepath ".ai.yaml");
    ai_filepath ←
      (if sandbox_enabled self
       then OS.mkdir (sandbox_dir self);;
            mret (OS.joinpath (sandbox_dir self) (filename +:+ ".ai.yaml"))
       else mret ai_filepath);
    YAMLHandler.write_file ai_filepath content;;
    mret (acc ++ [Entry filename "dry_run" (Some ai_filepath)])
  else if String.eqb (mode self) "apply" then
    if negb (OS.ask o ("Opravdu prepsat " +:+ filename +:+ "?")) then mret acc
    else
      ex ← OS.exists_ filepath;
      (if backup_enabled self && ex
       then
         timestamp ← OS.now o;
         let backup_name := filename +:+ "." +:+ timestamp +:+ ".bak" in
         let backup_path := OS.joinpath (backup_dir self) backup_name in
         OS.mkdir (backup_dir self);;
         OS.copy filepath backup_path
       else mret ());;
      YAMLHandler.write_file filepath content;;
      _validate_config o;;
      mret (acc ++ [Entry filename "applied" None])
  else mret acc.

Definition _apply_changes (self : t) (o : OS.oracle)
    (files : list (string * string)) : OS.M results :=
  entries ← OS.for_each (apply_file self o) files [];
  mret (Results true entries (Some (mode self))).

(** [process_request] from the answer of the model on: parse; with no
    file, print the answer in a panel and return; otherwise print one
    panel for each file, titled with its name, and apply. *)
Definition process_response (self : t) (o : OS.oracle) (rich : Rich.markup)
    (response : string) : OS.M results :=
  let files_to_update := _parse_response self response in
  match files_to_update with
  | [] =>
      Rich.print rich response;;
      mret (Results true [] None)
  | _ =>
      OS.for_each (λ _ item, Rich.print rich ("FILE: " +:+ item.1))
        files_to_update ();;
      _apply_changes self o files_to_update
  end.

End AIAgent.

(** A property of every element of a list, the largest value of a
    function on a list, and a relation between the elements of two lists
    at the same positions, by recursion on the list; [all] and [all2]
    are [Forall] and [Forall2], in a form that a recursive definition on
    documents can use. *)
Definition all {A : Type} (P : A → Prop) : list A → Prop :=
  fix all (l : list A) : Prop :=
    match l with
    | [] => True
    | x :: l' => P x ∧ all l'
    end.

Definition max_over {A : Type} (f : A → nat) : list A → nat :=
  fix max_over (l : list A) : nat :=
    match l with
    | [] => 0
    | x :: l' => Nat.max (f x) (max_over l')
    end.

Definition all2 {A B : Type} (R : A → B → Prop) : list A → list B → Prop :=
  fix all2 (l1 : list A) (l2 : list B) {struct l2} : Prop :=
    match l1, l2 with
    | [], [] => True
    | x :: l1', y :: l2' => R x y ∧ all2 l1' l2'
    | _, _ => False
    end.

(** ** [YAMLHandler.merge] on documents (yaml_tools.py)

    A parsed document is a tree of scalars, sequences and mappings; a
    mapping is a [dict], its keys are strings.  [merge] never looks into
    a scalar, so the scalars are kept few: numbers are integers. *)

Module Doc.

Inductive scalar : Type :=
| Null
| Bool (b : bool)
| Int (n : Z)
| Str (s : string).

#[local] Unset Elimination Schemes.
Inductive value : Type :=
| Scalar (a : scalar)
| Seq (items : list value)
| Map (items : list (string * value)).
#[local] Set Elimination Schemes.

(** The loop of [merge]: [result] takes the items of [update] in turn;
    [merge_rec] stands for the recursive call. *)
Definition merge_loop (merge_rec : list (string * value) → value → list (string * value))
  : list (string * value) → list (string * value) → list (string * value) :=
  fix loop (result items : list (string * value)) {struct items} :=
    match items with
    | [] => result
    | (key, value) :: rest =>
        match Dict.get key result, value with
        | Some (Map b), Map _ =>
            loop (Dict.put key (Map (merge_rec b value)) result) rest
        | _, _ => loop (Dict.put key value result) rest
        end
    end.

(** [merge] with [result] the copy of [base]; the recursion descends
    into the values of [update], so [update] is taken as a document.  It
    is only ever called on a mapping: the last case is never reached. *)
Fixpoint merge_into (base : list (string * value)) (update : value) {struct update}
  : list (string * value) :=
  match update with
  | Map update_items => merge_loop merge_into base update_items
  | _ => base
  end.

(** [merge(base, update)] on the items of two mappings. *)
Definition merge (base update : list (string * value)) : list (string * value) :=
  merge_into base (Map update).

(** A mapping built by Python has each key once, at every depth. *)
Fixpoint wf (v : value) : Prop :=
  match v with
  | Scalar _ => True
  | Seq items => all wf items
  | Map items => NoDup items.*1 ∧ all (λ kv, wf kv.2) items
  end.

(** The depth of nested mappings. *)
Fixpoint depth (v : value) : nat :=
  match v with
  | Scalar _ => 0
  | Seq _ => 0
  | Map items => S (max_over (λ kv, depth kv.2) items)
  end.

End Doc.

(** ** [YAMLHandler.merge] on objects

    Python dictionaries and lists are objects of a store, and a value
    held by one of them is a scalar or a reference.  [base.copy()] is a
    new dictionary with the items of [base]: the values are shared. *)

Module Obj.

Inductive val : Type :=
| VScalar (a : Doc.scalar)
| VRef (l : positive).

Inductive obj : Type :=
| ODict (items : list (string * val))
| OList (items : list val).

(** [isinstance(v, dict)]. *)
Definition is_dict (h : gmap positive obj) (v : val) : option positive :=
  match v with
  | VRef l => match h !! l with Some (ODict _) => Some l | _ => None end
  | VScalar _ => None
  end.

(** [d[key] = v] for the dictionary at [l]. *)
Definition setitem (h : gmap positive obj) (l : positive) (key : string) (v : val)
  : option (gmap positive obj) :=
  match h !! l with
  | Some (ODict items) => Some (<[l := ODict (Dict.put key v items)]> h)
  | _ => None
  end.

(** [d.get(key)] for the dictionary at [l]. *)
Definition getitem (h : gmap positive obj) (l : positive) (key : string)
  : option val :=
  match h !! l with
  | Some (ODict items) => Dict.get key items
  | _ => None
  end.

(** The loop of [merge] for the dictionary [result] of the store;
    [merge_rec] stands for the recursive call.  The items of [update]
    are those it had when the loop began: [merge] does not change
    [update] while it runs. *)
Definition merge_loop
    (merge_rec : gmap positive obj → positive → positive
                 → option (gmap positive obj * positive))
    (result : positive)
  : list (string * val) → gmap positive obj → option (gmap positive obj) :=
  fix loop (items : list (string * val)) (h : gmap positive obj) {struct items} :=
    match items with
    | [] => Some h
    | (key, value) :: rest =>
        match getitem h result key ≫= is_dict h, is_dict h value with
        | Some b, Some u =>
            '(h1, merged) ← merge_rec h b u;
            h2 ← setitem h1 result key (VRef merged);
            loop rest h2
        | _, _ =>
            h2 ← setitem h result key value;
            loop rest h2
        end
    end.

(** [merge(base, update)] for two dictionaries of the store [h]; the
    answer is the store afterwards and the dictionary returned.  [fuel]
    bounds the depth of the recursive calls; without fuel, or when an
    argument is no dictionary, there is no answer. *)
Fixpoint merge (fuel : nat) (h : gmap positive obj) (base update : positive)
  : option (gmap positive obj * positive) :=
  match fuel with
  | O => None
  | S fuel' =>
      match h !! base, h !! update with
      | Some (ODict base_items), Some (ODict update_items) =>
          let result := fresh (dom h) in
          h' ← merge_loop (merge fuel') result update_items
                 (<[result := ODict base_items]> h);
          Some (h', result)
      | _, _ => None
      end
  end.

(** The value [v] of the store [h] is the document [t]. *)
Fixpoint repr (h : gmap positive obj) (v : val) (t : Doc.value) {struct t} : Prop :=
  match t with
  | Doc.Scalar a => v = VScalar a
  | Doc.Seq ts =>
      ∃ l vs, v = VRef l ∧ h !! l = Some (OList vs) ∧ all2 (repr h) vs ts
  | Doc.Map kts =>
      ∃ l kvs, v = VRef l ∧ h !! l = Some (ODict kvs) ∧
        all2 (λ kv kt, kv.1 = kt.1 ∧ repr h kv.2 kt.2) kvs kts
  end.

End Obj.

(** ** The vocabulary of the properties *)

Module Spec.

(** [f] was opened by a [# FILE:] marker of [response] and content was
    captured for it: after some of the lines, the loop of
    [_parse_response] holds [f] as the current file with a buffer that is
    not empty. *)
Definition opened (response f : string) : Prop :=
  ∃ seen, seen `prefix_of` Py.split response Py.LF ∧
    AIAgent.pending (fold_left AIAgent.step seen AIAgent.init) = Some f.

(** The same for the loop of [extract_yaml_from_response]. *)
Definition opened_base (response f : string) : Prop :=
  ∃ seen st, seen `prefix_of` Py.split response Py.LF ∧
    BaseAgent.loop BaseAgent.init seen = inr st ∧
    BaseAgent.pending st = Some f.

(** The live path of a file name, its staging path in the sandbox, the
    path of its backup taken at a time stamp, and the question asked
    before it is overwritten, as [_apply_changes] builds them. *)
Definition live (filename : string) : string := OS.joinpath "/config" filename.

Definition stage (self : AIAgent.t) (filename : string) : string :=
  OS.joinpath (AIAgent.sandbox_dir self) (filename +:+ ".ai.yaml").

Definition backup_of (self : AIAgent.t) (filename timestamp : string) : string :=
  OS.joinpath (AIAgent.backup_dir self)
    (filename +:+ "." +:+ timestamp +:+ ".bak").

Definition prompt (filename : string) : string :=
  "Opravdu prepsat " +:+ filename +:+ "?".

(** [path] lies under the directory [dir]. *)
Definition under (dir path : string) : bool :=
  Py.startswith path (dir +:+ "/").

(** The events that a run from [w] to [w'] added. *)
Definition new_events (w w' : OS.world) : list OS.event :=
  drop (length (OS.log w)) (OS.log w').

(** The path an event opens for writing, if any. *)
Definition written (e : OS.event) : option string :=
  match e with
  | OS.WriteText p _ => Some p
  | OS.Copy _ dst => Some dst
  | _ => None
  end.



(** What a dry run with the sandbox does for one item: its events, and
    its entry in the results. *)
Definition stage_events (self : AIAgent.t) (item : string * string)
  : list OS.event :=
  [OS.Mkdir (AIAgent.sandbox_dir self);
   OS.Mkdir (OS.parent (stage self item.1));
   OS.WriteText (stage self item.1) item.2].

Definition staged (self : AIAgent.t) (item : string * string) : AIAgent.entry :=
  AIAgent.Entry item.1 "dry_run" (Some (stage self item.1)).

(** The items the user agrees to overwrite, and the entry of an applied
    item in the results. *)
Definition confirmed (o : OS.oracle) (files : list (string * string))
  : list (string * string) :=
  List.filter (λ kv, OS.ask o (prompt kv.1)) files.

Definition applied (item : string * string) : AIAgent.entry :=
  AIAgent.Entry item.1 "applied" None.


(** The files after a dry run with the sandbox. *)
Definition stage_all (self : AIAgent.t) (files : list (string * string))
    (m : gmap string string) : gmap string string :=
  fold_left (λ m kv, <[stage self kv.1 := kv.2]> m) files m.

(** The items [kvs] of a dictionary of the store [h] are the items
    [kts] of a mapping: the same keys in the same order, and each value
    is the document at that key. *)
Definition items_repr (h : gmap positive Obj.obj)
    (kvs : list (string * Obj.val)) (kts : list (string * Doc.value)) : Prop :=
  Forall2 (λ kv kt, kv.1 = kt.1 ∧ Obj.repr h kv.2 kt.2) kvs kts.

(** [merge_obj] on objects computes what [merge_doc] computes on
    documents, for the update [tu]: called in a store [h] whose part [g]
    holds a base mapping and the update [tu], it returns a dictionary
    which is the merged document in a part [g'] of the new store; the
    objects of [h] are unchanged, and [g'] extends [g] by new objects
    only. *)
Definition refines_at
    (merge_obj : gmap positive Obj.obj → positive → positive
                 → option (gmap positive Obj.obj * positive))
    (merge_doc : list (string * Doc.value) → Doc.value → list (string * Doc.value))
    (tu : Doc.value) : Prop :=
  ∀ (g h : gmap positive Obj.obj) (b u : positive) (tb : list (string * Doc.value)),
    g ⊆ h →
    Obj.repr g (Obj.VRef b) (Doc.Map tb) →
    Obj.repr g (Obj.VRef u) tu →
    ∃ h' m g',
      merge_obj h b u = Some (h', m)
      ∧ h ⊆ h' ∧ g ⊆ g' ∧ g' ⊆ h'
      ∧ (∀ l, l ∈ dom h → l ∉ dom g → l ∉ dom g')
      ∧ Obj.repr g' (Obj.VRef m) (Doc.Map (merge_doc tb tu)).

(** The line is a marker line, a marker line with nothing after the
    marker, and a line that is neither a marker nor a fence. *)
Definition is_marker (line : string) : bool :=
  Py.startswith (Py.strip line) "# FILE:".


Definition content_line (line : string) : bool :=
  negb (is_marker line)
  && negb (Py.startswith (Py.strip line) "```yaml")
  && negb (String.eqb (Py.strip line) "```").

(** What follows the marker on a marker line, trimmed. *)
Definition marker_rest (line : string) : string :=
  Py.strip (Py.replace line "# FILE:" EmptyString).

(** How many copies a list of events holds, and whether the live file
    of a name exists. *)
Fixpoint count_copies (l : list OS.event) : nat :=
  match l with
  | [] => 0
  | OS.Copy _ _ :: l' => S (count_copies l')
  | _ :: l' => count_copies l'
  end.

Definition live_exists (w : OS.world) (filename : string) : bool :=
  bool_decide (is_Some (OS.fs w !! live filename)).

End Spec.

(** * Properties *)

(** ** Strings and dictionaries *)

Lemma append_cons (c : ascii) (s t : string) :
  String c s +:+ t = String c (s +:+ t).
Proof. reflexivity. Qed.

Lemma append_nil_l (s : string) : EmptyString +:+ s = s.
Proof. reflexivity. Qed.

Lemma append_nil_r (s : string) : s +:+ EmptyString = s.
Proof.
  induction s as [|c s IH]; [done|]. by rewrite append_cons, IH.
Qed.

Lemma append_assoc (a b c : string) : (a +:+ b) +:+ c = a +:+ b +:+ c.
Proof.
  induction a as [|x a IH]; [done|]. by rewrite !append_cons, IH.
Qed.

Lemma length_append (a b : string) :
  String.length (a +:+ b) = String.length a + String.length b.
Proof.
  induction a as [|c a IH]; [done|]. rewrite append_cons. simpl. by rewrite IH.
Qed.

Lemma append_inv_head (a x y : string) : a +:+ x = a +:+ y → x = y.
Proof. apply String.app_inj. Qed.

Lemma append_inv_tail (x y b : string) : x +:+ b = y +:+ b → x = y.
Proof.
  revert y. induction x as [|c x IH]; intros [|d y]; intros H.
  - done.
  - apply (f_equal String.length) in H. rewrite !length_append in H.
    simpl in H. lia.
  - apply (f_equal String.length) in H. rewrite !length_append in H.
    simpl in H. lia.
  - rewrite !append_cons in H. injection H as -> H. f_equal. by apply IH.
Qed.

(** Splitting, joining and the name of a path. *)

Lemma split_go_lacks sep cur k :
  Py.lacks sep k = true → Py.split_go sep cur k = [cur +:+ k].
Proof.
  revert cur. induction k as [|c k IH]; intros cur H; simpl.
  - by rewrite append_nil_r.
  - simpl in H. apply andb_prop in H as [Hc Hk].
    apply negb_true_iff in Hc. rewrite Hc.
    rewrite IH by done. by rewrite append_assoc.
Qed.

Lemma split_go_not_nil sep cur s : Py.split_go sep cur s ≠ [].
Proof.
  revert cur. induction s as [|c s IH]; intros cur; simpl; [done|].
  destruct (Ascii.eqb c sep); [done | apply IH].
Qed.

Lemma last_cons_not_nil {A} (x : A) l d : l ≠ [] → List.last (x :: l) d = List.last l d.
Proof. by destruct l. Qed.

Lemma name_split_go dir k cur :
  Py.lacks "/" k = true →
  List.last (Py.split_go "/" cur (dir +:+ "/" +:+ k)) EmptyString = k.
Proof.
  intros Hk. revert cur. induction dir as [|c dir IH]; intros cur.
  - rewrite append_nil_l, append_cons. simpl.
    by rewrite split_go_lacks by done.
  - rewrite append_cons. simpl. destruct (Ascii.eqb c "/").
    + rewrite last_cons_not_nil by apply split_go_not_nil. apply IH.
    + apply IH.
Qed.

Lemma name_joinpath dir k : Py.lacks "/" k = true → OS.name (OS.joinpath dir k) = k.
Proof. intros H. unfold OS.name, OS.joinpath, Py.split. by apply name_split_go. Qed.

Lemma split_go_snoc sep cur a t :
  Py.lacks sep t = true →
  Py.split_go sep cur (a +:+ String sep t) = Py.split_go sep cur a ++ [t].
Proof.
  intros Ht. revert cur. induction a as [|c a IH]; intros cur.
  - rewrite append_nil_l. simpl. rewrite Ascii.eqb_refl.
    by rewrite split_go_lacks by done.
  - rewrite append_cons. simpl. destruct (Ascii.eqb c sep).
    + by rewrite IH.
    + apply IH.
Qed.

Lemma join_cons sep x l : l ≠ [] → Py.join sep (x :: l) = x +:+ sep +:+ Py.join sep l.
Proof. by destruct l. Qed.

Lemma join_split_go c cur s :
  Py.join (String c EmptyString) (Py.split_go c cur s) = cur +:+ s.
Proof.
  revert cur. induction s as [|x s IH]; intros cur; simpl.
  - by rewrite append_nil_r.
  - destruct (Ascii.eqb x c) eqn:E.
    + apply Ascii.eqb_eq in E. subst x.
      rewrite join_cons by apply split_go_not_nil. by rewrite IH.
    + rewrite IH. by rewrite append_assoc.
Qed.

Lemma lacks_append c a b :
  Py.lacks c (a +:+ b) = Py.lacks c a && Py.lacks c b.
Proof.
  induction a as [|x a IH]; [done|]. rewrite append_cons. simpl.
  by rewrite IH, andb_assoc.
Qed.

Section DictFacts.
Context {V : Type}.
Implicit Types (d : list (string * V)) (k : string) (v : V).

Lemma keys_put_self k v d : k ∈ Dict.keys (Dict.put k v d).
Proof.
  unfold Dict.keys.
  induction d as [|[k' v'] d IH]; simpl.
  - apply list_elem_of_here.
  - destruct (String.eqb k k'); simpl.
    + apply list_elem_of_here.
    + by apply list_elem_of_further.
Qed.

Lemma keys_put_mono k v d k0 : k0 ∈ Dict.keys d → k0 ∈ Dict.keys (Dict.put k v d).
Proof.
  unfold Dict.keys. induction d as [|[k' v'] d IH]; simpl; intros H.
  - by apply list_elem_of_further.
  - destruct (String.eqb k k') eqn:E; simpl.
    + apply String.eqb_eq in E. by subst k'.
    + apply elem_of_cons in H as [->|H].
      * apply list_elem_of_here.
      * apply list_elem_of_further. by apply IH.
Qed.

Lemma keys_filter (P : string → bool) d k :
  k ∈ Dict.keys (List.filter (λ kv, P kv.1) d) ↔ k ∈ Dict.keys d ∧ P k = true.
Proof.
  unfold Dict.keys. induction d as [|[k' v'] d IH]; simpl.
  - split; [intros H | intros [H _]]; by apply elem_of_nil in H.
  - destruct (P k') eqn:E; simpl; rewrite ?elem_of_cons, IH.
    + split; [intros [->|[? ?]]; auto | intros [[->|?] ?]; auto].
    + split; [intros [? ?]; auto | intros [[->|?] ?]; [congruence | auto]].
Qed.

End DictFacts.

Lemma str_in_elem_of (k : string) (l : list string) : str_in k l = true ↔ k ∈ l.
Proof.
  unfold str_in. rewrite existsb_exists. split.
  - intros (x & Hx & E). apply String.eqb_eq in E. subst x. by apply list_elem_of_In.
  - intros H. exists k. split; [by apply list_elem_of_In | apply String.eqb_refl].
Qed.

(** ** The two parsers *)

Lemma ai_flush_keeps st f :
  AIAgent.pending st = Some f ∨ f ∈ Dict.keys (AIAgent.files st) →
  f ∈ Dict.keys (AIAgent.flush st).
Proof.
  unfold AIAgent.flush. intros [H|H].
  - rewrite H. apply keys_put_self.
  - destruct (AIAgent.pending st); [by apply keys_put_mono | done].
Qed.

Lemma ai_step_keeps st line f :
  AIAgent.pending st = Some f ∨ f ∈ Dict.keys (AIAgent.files st) →
  AIAgent.pending (AIAgent.step st line) = Some f
  ∨ f ∈ Dict.keys (AIAgent.files (AIAgent.step st line)).
Proof.
  intros H. unfold AIAgent.step.
  destruct (Py.startswith (Py.strip line) "# FILE:").
  { right. simpl. by apply ai_flush_keeps. }
  destruct (Py.startswith (Py.strip line) "```yaml").
  { destruct H as [H|H]; [left | right]; done. }
  destruct (String.eqb (Py.strip line) "```" && AIAgent.in_yaml_block st).
  { destruct (AIAgent.pending st) eqn:E.
    - right. simpl. apply ai_flush_keeps. rewrite E. done.
    - destruct H as [H|H]; [congruence | right; done]. }
  destruct (AIAgent.capturing st); [|done].
  destruct H as [H|H]; [left | right; done].
  unfold AIAgent.pending in *. simpl.
  destruct (AIAgent.current_file st) as [g|]; [|done].
  destruct (AIAgent.current_content st); [done|]. simpl. done.
Qed.

Lemma ai_loop_keeps lines st f :
  AIAgent.pending st = Some f ∨ f ∈ Dict.keys (AIAgent.files st) →
  f ∈ Dict.keys (AIAgent.flush (fold_left AIAgent.step lines st)).
Proof.
  revert st. induction lines as [|line lines IH]; simpl; intros st H.
  - by apply ai_flush_keeps.
  - apply IH. by apply ai_step_keeps.
Qed.

(** Whatever was opened with content is in the dictionary [files] when
    the loop of [_parse_response] ends. *)
Lemma opened_captured response f :
  Spec.opened response f → f ∈ Dict.keys (AIAgent.captured response).
Proof.
  intros (seen & [rest Hsplit] & Hp). unfold AIAgent.captured.
  rewrite Hsplit, fold_left_app. apply ai_loop_keeps. by left.
Qed.

Lemma base_flush_keeps st f :
  BaseAgent.pending st = Some f ∨ f ∈ Dict.keys (BaseAgent.files st) →
  f ∈ Dict.keys (BaseAgent.flush st).
Proof.
  unfold BaseAgent.flush. intros [H|H].
  - rewrite H. apply keys_put_self.
  - destruct (BaseAgent.pending st); [by apply keys_put_mono | done].
Qed.

Lemma base_step_keeps st st' line f :
  BaseAgent.step st line = inr st' →
  BaseAgent.pending st = Some f ∨ f ∈ Dict.keys (BaseAgent.files st) →
  BaseAgent.pending st' = Some f ∨ f ∈ Dict.keys (BaseAgent.files st').
Proof.
  unfold BaseAgent.step. intros Hstep H.
  destruct (Py.startswith (Py.strip line) "# FILE:").
  { destruct (Py.split_ws _) as [|tok toks]; [done|].
    injection Hstep as <-. right. simpl. by apply base_flush_keeps. }
  destruct (Py.startswith (Py.strip line) "```yaml").
  { injection Hstep as <-. destruct H as [H|H]; [left | right]; done. }
  destruct (String.eqb (Py.strip line) "```" && BaseAgent.in_yaml st).
  { injection Hstep as <-. right. simpl. by apply base_flush_keeps. }
  destruct (BaseAgent.in_yaml st); injection Hstep as <-; [|done].
  destruct H as [H|H]; [left | right; done].
  unfold BaseAgent.pending in *. simpl.
  destruct (BaseAgent.current_file st) as [g|]; [|done].
  destruct (BaseAgent.current_content st); [done|]. simpl. done.
Qed.

Lemma base_loop_keeps lines st st' f :
  BaseAgent.loop st lines = inr st' →
  BaseAgent.pending st = Some f ∨ f ∈ Dict.keys (BaseAgent.files st) →
  f ∈ Dict.keys (BaseAgent.flush st').
Proof.
  revert st. induction lines as [|line lines IH]; simpl; intros st Hloop H.
  - injection Hloop as <-. by apply base_flush_keeps.
  - destruct (BaseAgent.step st line) as [e|st1] eqn:E; [done|].
    eapply IH; [done|]. by eapply base_step_keeps.
Qed.

Lemma base_loop_app seen rest st st' :
  BaseAgent.loop st (seen ++ rest) = inr st' →
  ∃ st1, BaseAgent.loop st seen = inr st1 ∧ BaseAgent.loop st1 rest = inr st'.
Proof.
  revert st. induction seen as [|line seen IH]; simpl; intros st H.
  - by exists st.
  - destruct (BaseAgent.step st line) as [e|st1]; [done | by apply IH].
Qed.

(** C6, as the specification states it, fails for [_parse_response]:
    the file [secrets.yaml] is opened by a marker and has content, yet
    the agent built from an empty environment does not return it,
    because [secrets.yaml] is not in its [allowed_files]. *)
Lemma parse_response_drops_unlisted_file :
  ¬ (∀ (self : AIAgent.t) (response f : string),
       Spec.opened response f →
       f ∈ Dict.keys (AIAgent._parse_response self response)).
Proof.
  intros H.
  specialize (H AIAgent.default
                ("# FILE: secrets.yaml" +:+ Py.nl +:+ "password: x")
                "secrets.yaml").
  assert (Hopen : Spec.opened
            ("# FILE: secrets.yaml" +:+ Py.nl +:+ "password: x") "secrets.yaml").
  { exists ["# FILE: secrets.yaml"; "password: x"].
    split; [by exists [] | reflexivity]. }
  apply H in Hopen. vm_compute in Hopen. by apply elem_of_nil in Hopen.
Qed.

(** C6 (amended): [_parse_response] filters the captured files against
    the allow-list before it returns them, so a file name opened by a
    [# FILE:] marker with captured content is in its result exactly when
    it is in [allowed_files]; [extract_yaml_from_response] does not
    filter: whenever it returns, every such file name is in its result. *)
Theorem parsers_and_the_allow_list (response f : string) :
  (∀ self : AIAgent.t,
     Spec.opened response f →
     (f ∈ Dict.keys (AIAgent._parse_response self response)
      ↔ f ∈ AIAgent.allowed_files self))
  ∧ (∀ files : list (string * string),
       BaseAgent.extract_yaml_from_response response = inr files →
       Spec.opened_base response f →
       f ∈ Dict.keys files).
Proof.
  split.
  - intros self H. unfold AIAgent._parse_response.
    rewrite (keys_filter (λ k, str_in k (AIAgent.allowed_files self))).
    rewrite str_in_elem_of.
    split; [by intros [_ ?] | intros ?; split; [by apply opened_captured | done]].
  - intros files Hex (seen & st & [rest Hsplit] & Hseen & Hp).
    unfold BaseAgent.extract_yaml_from_response in Hex.
    destruct (BaseAgent.loop BaseAgent.init (Py.split response Py.LF))
      as [e|st'] eqn:Hloop; [done|].
    injection Hex as <-. rewrite Hsplit in Hloop.
    apply base_loop_app in Hloop as (st1 & H1 & H2).
    rewrite Hseen in H1. injection H1 as <-.
    eapply base_loop_keeps; [done | by left].
Qed.

Lemma parsers_and_the_allow_list_witness :
  "scripts.yaml" ∈
    Dict.keys (AIAgent._parse_response AIAgent.default
                 ("# FILE: scripts.yaml" +:+ Py.nl +:+ "hello: {}"))
  ∧ "secrets.yaml" ∈
      Dict.keys [("secrets.yaml", "password: x")].
Proof.
  split.
  - apply (proj1 (parsers_and_the_allow_list _ _)).
    + exists ["# FILE: scripts.yaml"; "hello: {}"].
      split; [by exists [] | reflexivity].
    + vm_compute. apply list_elem_of_further, list_elem_of_here.
  - apply (proj2 (parsers_and_the_allow_list
                    ("# FILE: secrets.yaml" +:+ Py.nl +:+ "password: x")
                    "secrets.yaml")).
    + reflexivity.
    + exists ["# FILE: secrets.yaml"; "password: x"],
        (BaseAgent.Locals [] (Some "secrets.yaml") ["password: x"] true).
      split; [by exists [] | split; reflexivity].
Defined.

(** Both parsers flush the open file when a marker line comes. *)
Lemma marker_flushes_open_file (line : string) :
  Py.startswith (Py.strip line) "# FILE:" = true →
  (∀ st, AIAgent.files (AIAgent.step st line) = AIAgent.flush st)
  ∧ (∀ st st', BaseAgent.step st line = inr st' →
               BaseAgent.files st' = BaseAgent.flush st).
Proof.
  intros Hm. split.
  - intros st. unfold AIAgent.step. by rewrite Hm.
  - intros st st'. unfold BaseAgent.step. rewrite Hm.
    destruct (Py.split_ws _); [done | by intros [= <-]].
Qed.

(** [extract_yaml_from_response] takes the first token that follows the
    marker as the name of the file. *)
Lemma base_marker_first_token (line : string) st st' :
  Py.startswith (Py.strip line) "# FILE:" = true →
  BaseAgent.step st line = inr st' →
  BaseAgent.current_file st'
  = head (Py.split_ws (Py.strip (Py.replace line "# FILE:" EmptyString))).
Proof.
  intros Hm. unfold BaseAgent.step. rewrite Hm.
  destruct (Py.split_ws _); [done | by intros [= <-]].
Qed.

(** C7: on the marker line [# FILE: automations.yaml (updated)] the loop
    of [_parse_response] takes the whole rest of the line as the name of
    the file, not its first token as [extract_yaml_from_response] does;
    the file is then lost, its name not being in the allow-list. *)
Theorem parse_response_marker_keeps_whole_rest :
  let line := "# FILE: automations.yaml (updated)" in
  let response := line +:+ Py.nl +:+ "- id: a1" in
  AIAgent.current_file (AIAgent.step AIAgent.init line)
    = Some "automations.yaml (updated)"
  ∧ BaseAgent.step BaseAgent.init line
    = inr (BaseAgent.Locals [] (Some "automations.yaml") [] true)
  ∧ AIAgent.captured response = [("automations.yaml (updated)", "- id: a1")]
  ∧ AIAgent._parse_response AIAgent.default response = []
  ∧ BaseAgent.extract_yaml_from_response response
    = inr [("automations.yaml", "- id: a1")].
Proof. repeat split; reflexivity. Qed.

(** ** The monad of effects *)

Lemma exists_Some path w bytes :
  OS.fs w !! path = Some bytes → OS.exists_ path w = (inr true, w).
Proof.
  intros H. unfold OS.exists_. rewrite H. rewrite bool_decide_eq_true_2; [done|].
  by eexists.
Qed.

Lemma exists_None path w :
  OS.fs w !! path = None → OS.exists_ path w = (inr false, w).
Proof.
  intros H. unfold OS.exists_. rewrite H. rewrite bool_decide_eq_false_2; [done|].
  by intros [? ?].
Qed.

Lemma bind_eq {A B} (m : OS.M A) (f : A → OS.M B) w x w' :
  m w = (inr x, w') → (m ≫= f) w = f x w'.
Proof. intros H. unfold mbind, OS.M_bind. by rewrite H. Qed.

(** ** [ConfigManager]: backups, writing and restoring *)

Lemma create_backup_none self o filename w :
  OS.fs w !! OS.joinpath (ConfigManager.config_dir self) filename = None →
  ConfigManager.create_backup self o filename w = (inr None, w).
Proof.
  intros H. unfold ConfigManager.create_backup.
  by rewrite (bind_eq _ _ _ _ _ (exists_None _ _ H)).
Qed.

Lemma create_backup_some self o filename w old :
  let live := OS.joinpath (ConfigManager.config_dir self) filename in
  let backup_path :=
    OS.joinpath (ConfigManager.backup_dir self)
      (filename +:+ "." +:+ OS.clock o (OS.ticks w) +:+ ".bak") in
  OS.fs w !! live = Some old →
  ConfigManager.create_backup self o filename w
  = (inr (Some backup_path),
     OS.World (<[backup_path := old]> (OS.fs w))
              (OS.log w ++ [OS.Copy live backup_path]) (S (OS.ticks w))).
Proof.
  intros live backup_path H. unfold ConfigManager.create_backup.
  rewrite (bind_eq _ _ _ _ _ (exists_Some _ _ _ H)). simpl.
  unfold mbind, OS.M_bind, OS.now, OS.copy, mret, OS.M_ret. simpl.
  fold live. rewrite H. done.
Qed.

(** The name of a backup determines its time stamp. *)
Lemma backup_path_inj dir filename t1 t2 :
  OS.joinpath dir (filename +:+ "." +:+ t1 +:+ ".bak")
  = OS.joinpath dir (filename +:+ "." +:+ t2 +:+ ".bak") →
  t1 = t2.
Proof.
  unfold OS.joinpath. intros H.
  do 4 apply append_inv_head in H. by apply append_inv_tail in H.
Qed.

(** C3, as the specification states it, fails: two backups of
    [sensors.yaml] taken within the second [20260101_120000] get one and
    the same name; and when the live file changed in between, the one
    backup file holds the later bytes, the earlier ones are gone. *)
Lemma same_second_backups_collide :
  ¬ (∀ (self : ConfigManager.t) (o : OS.oracle) (filename : string)
       (w1 w2 w1' w2' : OS.world) (p1 p2 : string),
       ConfigManager.create_backup self o filename w1 = (inr (Some p1), w1') →
       ConfigManager.create_backup self o filename w2 = (inr (Some p2), w2') →
       OS.clock o (OS.ticks w1) = OS.clock o (OS.ticks w2) →
       p1 ≠ p2)
  ∧ (let self := ConfigManager.Make "/config" "/config/.ai_backups"
                   "/config/ai_sandbox" ["sensors.yaml"] in
     let o := OS.Oracle (λ _, "20260101_120000") (λ _, true) (λ _, Some true) in
     let p := "/config/.ai_backups/sensors.yaml.20260101_120000.bak" in
     let w1 := OS.World {["/config/sensors.yaml" := "v1"]} [] 0 in
     let w2 := (ConfigManager.create_backup self o "sensors.yaml" w1).2 in
     let w3 := (OS.write_text "/config/sensors.yaml" "v2" w2).2 in
     let w4 := (ConfigManager.create_backup self o "sensors.yaml" w3).2 in
     OS.fs w2 !! p = Some "v1"
     ∧ (ConfigManager.create_backup self o "sensors.yaml" w3).1 = inr (Some p)
     ∧ OS.fs w4 !! p = Some "v2"
     ∧ size (OS.fs w4) = 2).
Proof.
  split.
  - intros H.
    pose (self := ConfigManager.Make "/config" "/config/.ai_backups"
                    "/config/ai_sandbox" ["sensors.yaml"]).
    pose (o := OS.Oracle (λ _, "20260101_120000") (λ _, true) (λ _, Some true)).
    pose (w1 := OS.World {["/config/sensors.yaml" := "v1"]} [] 0).
    pose (p := "/config/.ai_backups/sensors.yaml.20260101_120000.bak").
    pose (w2 := (ConfigManager.create_backup self o "sensors.yaml" w1).2).
    pose (w3 := (ConfigManager.create_backup self o "sensors.yaml" w2).2).
    apply (H self o "sensors.yaml" w1 w2 w2 w3 p p); by vm_compute.
  - by vm_compute.
Qed.

(** C3 (amended): the name of a backup is
    [<filename>.<timestamp>.bak], without a sequence suffix; two backups
    of one file name have the same name exactly when their time stamps
    are identical, and then the later backup overwrites the earlier one:
    the backup file holds the bytes the live file had at the second
    call. *)
Theorem backup_names_differ_iff_timestamps_differ
    (self : ConfigManager.t) (o : OS.oracle) (filename : string)
    (w1 w2 w1' w2' : OS.world) (p1 p2 : string) :
  ConfigManager.create_backup self o filename w1 = (inr (Some p1), w1') →
  ConfigManager.create_backup self o filename w2 = (inr (Some p2), w2') →
  p1 = OS.joinpath (ConfigManager.backup_dir self)
         (filename +:+ "." +:+ OS.clock o (OS.ticks w1) +:+ ".bak")
  ∧ p2 = OS.joinpath (ConfigManager.backup_dir self)
           (filename +:+ "." +:+ OS.clock o (OS.ticks w2) +:+ ".bak")
  ∧ (p1 = p2 ↔ OS.clock o (OS.ticks w1) = OS.clock o (OS.ticks w2))
  ∧ (p1 = p2 →
     OS.fs w2' !! p1
     = OS.fs w2 !! OS.joinpath (ConfigManager.config_dir self) filename).
Proof.
  intros H1 H2.
  destruct (OS.fs w1 !! OS.joinpath (ConfigManager.config_dir self) filename)
    as [old1|] eqn:E1;
    [rewrite (create_backup_some _ _ _ _ _ E1) in H1
    |by rewrite (create_backup_none _ _ _ _ E1) in H1].
  destruct (OS.fs w2 !! OS.joinpath (ConfigManager.config_dir self) filename)
    as [old2|] eqn:E2;
    [rewrite (create_backup_some _ _ _ _ _ E2) in H2
    |by rewrite (create_backup_none _ _ _ _ E2) in H2].
  injection H1 as <- <-. injection H2 as <- <-.
  split; [done|]. split; [done|]. split.
  - split; [apply backup_path_inj | by intros ->].
  - intros ->. simpl. by rewrite lookup_insert_eq.
Qed.

Lemma backup_names_differ_iff_timestamps_differ_witness :
  let self := ConfigManager.Make "/config" "/config/.ai_backups"
                "/config/ai_sandbox" ["sensors.yaml"] in
  let o := OS.Oracle (λ n, if (n <? 2)%nat then "20260101_120000"
                           else "20260101_120001")
             (λ _, true) (λ _, Some true) in
  let w1 := OS.World {["/config/sensors.yaml" := "v1"]} [] 0 in
  let w2 := (ConfigManager.create_backup self o "sensors.yaml" w1).2 in
  "/config/.ai_backups/sensors.yaml.20260101_120000.bak"
  = "/config/.ai_backups/sensors.yaml.20260101_120000.bak"
  ↔ OS.clock o (OS.ticks w1) = OS.clock o (OS.ticks w2).
Proof.
  intros self o w1 w2.
  pose (w3 := (ConfigManager.create_backup self o "sensors.yaml" w2).2).
  apply (backup_names_differ_iff_timestamps_differ
           self o "sensors.yaml" w1 w2 w2 w3); by vm_compute.
Defined.



Lemma startswith_append p s : Py.startswith (p +:+ s) p = true.
Proof.
  unfold Py.startswith. induction p as [|c p IH].
  - by destruct s.
  - rewrite append_cons. simpl. destruct (ascii_dec c c); [apply IH | done].
Qed.





(** C4, as the specification states it, fails: [scripts.yaml] is written
    twice within the second [20260101_120000].  The second write makes
    its backup copy, but onto the backup of the first: no new backup
    appears, the one backup file now holds the bytes of the first write,
    and the bytes [v1] that the first write saved are in no file. *)
Lemma write_file_overwrites_same_second_backup :
  let self := ConfigManager.Make "/config" "/config/.ai_backups"
                "/config/ai_sandbox" ["scripts.yaml"] in
  let o := OS.Oracle (λ _, "20260101_120000") (λ _, true) (λ _, Some true) in
  let backup := "/config/.ai_backups/scripts.yaml.20260101_120000.bak" in
  let w0 := OS.World {["/config/scripts.yaml" := "v1"]} [] 0 in
  let w1 := (ConfigManager.write_file self o "scripts.yaml" "v2" true w0).2 in
  let w2 := (ConfigManager.write_file self o "scripts.yaml" "v3" true w1).2 in
  OS.fs w1 !! backup = Some "v1"
  ∧ Spec.new_events w1 w2
    = [OS.Copy "/config/scripts.yaml" backup;
       OS.WriteText "/config/scripts.yaml" "v3"]
  ∧ dom (OS.fs w2) = dom (OS.fs w1)
  ∧ OS.fs w2 = {["/config/scripts.yaml" := "v3"; backup := "v2"]}.
Proof.
  intros self o backup w0 w1 w2.
  split; [by vm_compute|]. split; [by vm_compute|].
  split; by vm_compute.
Defined.

(** A name outside the allow-list is refused by [write_file] before
    anything is done. *)
Lemma write_file_refuses_unlisted self o filename content flag w :
  ConfigManager.is_file_allowed self filename = false →
  ∃ e, ConfigManager.write_file self o filename content flag w = (inl e, w).
Proof.
  intros H. unfold ConfigManager.write_file, ConfigManager.get_file_path.
  rewrite H. by eexists.
Qed.

(** [write_to_sandbox] writes the one file [<sandbox_dir>/<filename>]. *)
Lemma write_to_sandbox_writes_one_file self filename content w :
  let sandbox_path := OS.joinpath (ConfigManager.sandbox_dir self) filename in
  ConfigManager.write_to_sandbox self filename content w
  = (inr sandbox_path,
     OS.World (<[sandbox_path := content]> (OS.fs w))
       (OS.log w ++ [OS.WriteText sandbox_path content]) (OS.ticks w)).
Proof. reflexivity. Qed.

(** The name [restore_backup] derives from the name of a backup made by
    [create_backup] is the name of the file that was backed up, whatever
    dots that name has, as long as the time stamp has none. *)
Lemma original_name_of_backup filename timestamp :
  Py.lacks "." timestamp = true →
  ConfigManager.original_name (filename +:+ "." +:+ timestamp +:+ ".bak")
  = filename.
Proof.
  intros Hts. unfold ConfigManager.original_name, Py.split.
  change (filename +:+ "." +:+ timestamp +:+ ".bak")
    with (filename +:+ String "." timestamp +:+ String "." "bak").
  rewrite <- (append_assoc filename).
  rewrite split_go_snoc by done. rewrite split_go_snoc by done.
  rewrite <- app_assoc. rewrite length_app. simpl.
  replace (length (Py.split_go "." EmptyString filename) + 2 - 2)
    with (length (Py.split_go "." EmptyString filename)) by lia.
  rewrite take_app_length. apply (join_split_go "." EmptyString).
Qed.

(** So [restore_backup] finds the file of a backup that [create_backup]
    made: the name of the backup path, without its last two segments,
    is the file name. *)
Lemma original_name_of_backup_path dir filename timestamp :
  Py.lacks "/" filename = true → Py.lacks "/" timestamp = true →
  Py.lacks "." timestamp = true →
  ConfigManager.original_name
    (OS.name (OS.joinpath dir (filename +:+ "." +:+ timestamp +:+ ".bak")))
  = filename.
Proof.
  intros Hf Ht Hdot. rewrite name_joinpath; [by apply original_name_of_backup|].
  rewrite !lacks_append, Hf, Ht. done.
Qed.



(** ** [AIAgent._apply_changes]: the dry run *)

Ltac run_effects :=
  unfold AIAgent._validate_config, YAMLHandler.write_file, OS.ha_check_config,
    OS.now, OS.mkdir, OS.copy, OS.write_text, OS.emit, OS.lift,
    mbind, OS.M_bind, mret, OS.M_ret; simpl.

Lemma with_suffix_plain dir k sfx :
  OS.plain k = true → ∃ p, OS.with_suffix (OS.joinpath dir k) sfx = inr p.
Proof.
  unfold OS.plain. intros [[Ht _]%andb_prop Hs]%andb_prop.
  unfold OS.with_suffix. rewrite name_joinpath by done. rewrite Ht. simpl.
  by eexists.
Qed.

Lemma mode_dry_run self :
  AIAgent.mode self = "dry_run" →
  String.eqb (AIAgent.mode self) "read_only" = false
  ∧ String.eqb (AIAgent.mode self) "dry_run" = true.
Proof. intros ->. done. Qed.

Lemma apply_file_staged self o acc item w :
  AIAgent.mode self = "dry_run" → AIAgent.sandbox_enabled self = true →
  OS.plain item.1 = true →
  AIAgent.apply_file self o acc item w
  = (inr (acc ++ [Spec.staged self item]),
     OS.World (<[Spec.stage self item.1 := item.2]> (OS.fs w))
              (OS.log w ++ Spec.stage_events self item) (OS.ticks w)).
Proof.
  intros (E1 & E2)%mode_dry_run Hs Hp. unfold AIAgent.apply_file.
  rewrite E1, E2, Hs.
  destruct (with_suffix_plain "/config" item.1 ".ai.yaml" Hp) as [p ->].
  run_effects. unfold Spec.stage_events. fold (Spec.stage self item.1).
  by rewrite <- !app_assoc.
Qed.

Lemma for_each_staged self o files :
  AIAgent.mode self = "dry_run" → AIAgent.sandbox_enabled self = true →
  Forall (λ k, OS.plain k = true) (Dict.keys files) →
  ∀ acc w,
    OS.for_each (AIAgent.apply_file self o) files acc w
    = (inr (acc ++ map (Spec.staged self) files),
       OS.World (Spec.stage_all self files (OS.fs w))
         (OS.log w ++ concat (map (Spec.stage_events self) files)) (OS.ticks w)).
Proof.
  intros Hm Hs. unfold Dict.keys.
  induction files as [|item files IH]; intros Hp acc w; simpl.
  - rewrite !app_nil_r. by destruct w.
  - apply Forall_cons in Hp as [Hp1 Hp].
    rewrite (bind_eq _ _ _ _ _ (apply_file_staged self o acc item w Hm Hs Hp1)).
    rewrite IH by done. simpl. by rewrite <- !app_assoc.
Qed.

Lemma stage_inj self k1 k2 : Spec.stage self k1 = Spec.stage self k2 → k1 = k2.
Proof.
  unfold Spec.stage, OS.joinpath. intros H.
  do 2 apply append_inv_head in H. by apply append_inv_tail in H.
Qed.

Lemma stage_all_other self files m p :
  (∀ k, k ∈ Dict.keys files → p ≠ Spec.stage self k) →
  Spec.stage_all self files m !! p = m !! p.
Proof.
  unfold Dict.keys, Spec.stage_all. revert m.
  induction files as [|[k c] files IH]; intros m H; simpl; [done|].
  rewrite IH.
  - apply lookup_insert_ne. intros E. by apply (H k); [left|].
  - intros k' Hk'. apply H. by right.
Qed.

Lemma stage_all_lookup self files m k c :
  NoDup (Dict.keys files) → (k, c) ∈ files →
  Spec.stage_all self files m !! Spec.stage self k = Some c.
Proof.
  unfold Dict.keys, Spec.stage_all. revert m.
  induction files as [|[k' c'] files IH]; intros m Hnd Hin; simpl.
  - by apply elem_of_nil in Hin.
  - simpl in Hnd. apply NoDup_cons in Hnd as [Hk' Hnd].
    apply elem_of_cons in Hin as [[= -> ->]|Hin].
    + fold (Spec.stage_all self files (<[Spec.stage self k' := c']> m)).
      rewrite stage_all_other; [apply lookup_insert_eq|].
      intros k Hk E. apply stage_inj in E. by subst k.
    + by apply IH.
Qed.

Lemma new_events_app w w' evs :
  OS.log w' = OS.log w ++ evs → Spec.new_events w w' = evs.
Proof. intros H. unfold Spec.new_events. rewrite H. apply drop_app_length. Qed.

Lemma stage_events_written self files e p :
  e ∈ concat (map (Spec.stage_events self) files) → Spec.written e = Some p →
  ∃ k c, (k, c) ∈ files ∧ p = Spec.stage self k ∧ e = OS.WriteText p c.
Proof.
  induction files as [|[k c] files IH]; simpl; intros He Hw.
  - by apply elem_of_nil in He.
  - repeat (apply elem_of_cons in He as [->|He]); try done.
    + injection Hw as <-. exists k, c. split; [left | done].
    + destruct (IH He Hw) as (k' & c' & Hin & Hp & Hev).
      exists k', c'. split; [by right | done].
Qed.

(** C1, as the specification states it, fails.  The agent built from an
    empty environment stages [automations.yaml] in its sandbox
    [/config/ai_sandbox], a directory under [/config]; and an agent
    whose sandbox is disabled stages it as [/config/automations.ai.yaml],
    next to the live files and outside the sandbox. *)
Lemma dry_run_writes_under_config :
  ¬ (∀ (self : AIAgent.t) (o : OS.oracle) (files : list (string * string))
       (w : OS.world),
       AIAgent.mode self = "dry_run" →
       NoDup (Dict.keys files) →
       Forall (λ k, OS.plain k = true) (Dict.keys files) →
       ∀ e p,
         e ∈ Spec.new_events w (AIAgent._apply_changes self o files w).2 →
         Spec.written e = Some p →
         Spec.under "/config" p = false)
  ∧ (let self := AIAgent.Make "dry_run" true false "/config/ai_sandbox"
                   ["automations.yaml"] "/config/.ai_backups" in
     let o := OS.Oracle (λ _, "20260101_120000") (λ _, true) (λ _, Some true) in
     let w := OS.World ∅ [] 0 in
     let w' := (AIAgent._apply_changes self o
                  [("automations.yaml", "- id: a1")] w).2 in
     OS.log w' = [OS.Mkdir "/config";
                  OS.WriteText "/config/automations.ai.yaml" "- id: a1"]
     ∧ OS.fs w' !! "/config/automations.ai.yaml" = Some "- id: a1"
     ∧ Spec.under (AIAgent.sandbox_dir self) "/config/automations.ai.yaml"
       = false).
Proof.
  split; [|by vm_compute].
  intros H.
  pose (o := OS.Oracle (λ _, "20260101_120000") (λ _, true) (λ _, Some true)).
  specialize (H AIAgent.default o [("automations.yaml", "- id: a1")]
                (OS.World ∅ [] 0) eq_refl).
  assert (Hfalse : Spec.under "/config"
                     "/config/ai_sandbox/automations.yaml.ai.yaml" = false).
  { apply (H (NoDup_singleton _) ltac:(by repeat constructor)
             (OS.WriteText "/config/ai_sandbox/automations.yaml.ai.yaml"
                "- id: a1")); [|done].
    vm_compute. do 2 apply list_elem_of_further. apply list_elem_of_here. }
  by vm_compute in Hfalse.
Qed.

(** C1 (amended): in a dry run with the sandbox enabled, the content of
    each generated file is written to its staging path
    [<sandbox_dir>/<filename>.ai.yaml] and nothing else is opened for
    writing.  After the cycle one staged file per input file name, with
    that file's content, exists under the sandbox path, the staging
    paths of different names differ, and every other path is unchanged;
    so whenever the staging paths are not under [/config], no path under
    [/config] is opened for writing and every file under [/config] is
    unchanged. *)
Theorem dry_run_stages_every_file
    (self : AIAgent.t) (o : OS.oracle) (files : list (string * string))
    (w : OS.world) :
  AIAgent.mode self = "dry_run" →
  AIAgent.sandbox_enabled self = true →
  NoDup (Dict.keys files) →
  Forall (λ k, OS.plain k = true) (Dict.keys files) →
  ∃ w',
    AIAgent._apply_changes self o files w
    = (inr (AIAgent.Results true (map (Spec.staged self) files) (Some "dry_run")),
       w')
    ∧ Spec.new_events w w' = concat (map (Spec.stage_events self) files)
    ∧ (∀ e p, e ∈ Spec.new_events w w' → Spec.written e = Some p →
         ∃ k c, (k, c) ∈ files ∧ p = Spec.stage self k ∧ e = OS.WriteText p c)
    ∧ (∀ k c, (k, c) ∈ files →
         OS.fs w' !! Spec.stage self k = Some c
         ∧ Spec.under (AIAgent.sandbox_dir self) (Spec.stage self k) = true)
    ∧ (∀ k1 k2, Spec.stage self k1 = Spec.stage self k2 → k1 = k2)
    ∧ (∀ p, (∀ k, k ∈ Dict.keys files → p ≠ Spec.stage self k) →
         OS.fs w' !! p = OS.fs w !! p)
    ∧ ((∀ k, k ∈ Dict.keys files →
             Spec.under "/config" (Spec.stage self k) = false) →
       (∀ e p, e ∈ Spec.new_events w w' → Spec.written e = Some p →
               Spec.under "/config" p = false)
       ∧ (∀ p, Spec.under "/config" p = true → OS.fs w' !! p = OS.fs w !! p)).
Proof.
  intros Hm Hs Hnd Hp.
  pose proof (for_each_staged self o files Hm Hs Hp [] w) as Hrun.
  eexists. split.
  { unfold AIAgent._apply_changes. rewrite (bind_eq _ _ _ _ _ Hrun).
    by rewrite Hm. }
  assert (Hnew : Spec.new_events w
                   (OS.World (Spec.stage_all self files (OS.fs w))
                      (OS.log w ++ concat (map (Spec.stage_events self) files))
                      (OS.ticks w))
                 = concat (map (Spec.stage_events self) files))
    by by apply new_events_app.
  rewrite Hnew. simpl.
  assert (Hkey : ∀ k c, (k, c) ∈ files → k ∈ Dict.keys files).
  { intros k c Hin. unfold Dict.keys. apply list_elem_of_fmap.
    by exists (k, c). }
  split; [done|]. split; [apply stage_events_written|]. split.
  { intros k c Hin. split; [by apply stage_all_lookup|].
    unfold Spec.under, Spec.stage, OS.joinpath. rewrite <- append_assoc.
    apply startswith_append. }
  split; [apply stage_inj|]. split; [apply stage_all_other|].
  intros Hout. split.
  - intros e p He Hw.
    destruct (stage_events_written _ _ _ _ He Hw) as (k & c & Hin & -> & _).
    apply Hout. by eapply Hkey.
  - intros p Hunder. apply stage_all_other. intros k Hk ->.
    rewrite (Hout k Hk) in Hunder. done.
Qed.

Lemma dry_run_stages_every_file_witness :
  let self := AIAgent.Make "dry_run" true true "/share/ai_sandbox"
                ["automations.yaml"; "scripts.yaml"] "/config/.ai_backups" in
  let o := OS.Oracle (λ _, "20260101_120000") (λ _, true) (λ _, Some true) in
  let w := OS.World {["/config/automations.yaml" := "[]"]} [] 0 in
  ∃ w',
    (AIAgent._apply_changes self o
       [("automations.yaml", "- id: a1"); ("scripts.yaml", "hello: {}")] w).2
    = w'
    ∧ OS.fs w' !! "/share/ai_sandbox/scripts.yaml.ai.yaml" = Some "hello: {}"
    ∧ OS.fs w' !! "/config/automations.yaml" = Some "[]".
Proof.
  intros self o w.
  destruct (dry_run_stages_every_file self o
              [("automations.yaml", "- id: a1"); ("scripts.yaml", "hello: {}")] w)
    as (w' & Hrun & _ & _ & Hstaged & _ & _ & Hout).
  - reflexivity.
  - reflexivity.
  - apply NoDup_cons. split; [|apply NoDup_singleton].
    by intros [=]%list_elem_of_singleton.
  - repeat constructor.
  - exists w'. split; [by rewrite Hrun|]. split.
    + apply (Hstaged "scripts.yaml" "hello: {}").
      apply list_elem_of_further, list_elem_of_here.
    + rewrite (proj2 (Hout ltac:(intros k Hk;
                 repeat (apply elem_of_cons in Hk as [->|Hk]); try reflexivity;
                 by apply elem_of_nil in Hk)) "/config/automations.yaml" eq_refl).
      reflexivity.
Defined.

(** ** [AIAgent._apply_changes]: applying *)

Lemma count_checks_app l l' :
  OS.count_checks (l ++ l') = OS.count_checks l + OS.count_checks l'.
Proof.
  induction l as [|e l IH]; [done|]. destruct e; simpl; by rewrite ?IH.
Qed.

Lemma mode_apply self :
  AIAgent.mode self = "apply" →
  String.eqb (AIAgent.mode self) "read_only" = false
  ∧ String.eqb (AIAgent.mode self) "dry_run" = false
  ∧ String.eqb (AIAgent.mode self) "apply" = true.
Proof. intros ->. done. Qed.

Lemma apply_file_declined self o acc k c w :
  AIAgent.mode self = "apply" → OS.ask o (Spec.prompt k) = false →
  AIAgent.apply_file self o acc (k, c) w = (inr acc, w).
Proof.
  intros (E1 & E2 & E3)%mode_apply Hask. unfold AIAgent.apply_file.
  rewrite E1, E2, E3. simpl. unfold Spec.prompt in Hask. by rewrite Hask.
Qed.

Lemma apply_file_confirmed_backup self o acc k c w old :
  AIAgent.mode self = "apply" → OS.ask o (Spec.prompt k) = true →
  AIAgent.backup_enabled self = true → OS.fs w !! Spec.live k = Some old →
  let bp := Spec.backup_of self k (OS.clock o (OS.ticks w)) in
  AIAgent.apply_file self o acc (k, c) w
  = (inr (acc ++ [Spec.applied (k, c)]),
     OS.World (<[Spec.live k := c]> (<[bp := old]> (OS.fs w)))
       (OS.log w ++ [OS.Mkdir (AIAgent.backup_dir self); OS.Copy (Spec.live k) bp;
                     OS.Mkdir (OS.parent (Spec.live k));
                     OS.WriteText (Spec.live k) c;
                     OS.CheckConfig
                       (OS.check_config o (OS.count_checks (OS.log w)))])
       (S (OS.ticks w))).
Proof.
  intros (E1 & E2 & E3)%mode_apply Hask Hb Hold bp. unfold AIAgent.apply_file.
  rewrite E1, E2, E3. simpl. unfold Spec.prompt in Hask. rewrite Hask. simpl.
  fold (Spec.live k). rewrite (bind_eq _ _ _ _ _ (exists_Some _ _ _ Hold)).
  rewrite Hb. run_effects. rewrite Hold. simpl.
  rewrite !count_checks_app. simpl. rewrite !Nat.add_0_r.
  rewrite <- !app_assoc. done.
Qed.

Lemma apply_file_confirmed_plain self o acc k c w :
  AIAgent.mode self = "apply" → OS.ask o (Spec.prompt k) = true →
  AIAgent.backup_enabled self = false ∨ OS.fs w !! Spec.live k = None →
  AIAgent.apply_file self o acc (k, c) w
  = (inr (acc ++ [Spec.applied (k, c)]),
     OS.World (<[Spec.live k := c]> (OS.fs w))
       (OS.log w ++ [OS.Mkdir (OS.parent (Spec.live k));
                     OS.WriteText (Spec.live k) c;
                     OS.CheckConfig
                       (OS.check_config o (OS.count_checks (OS.log w)))])
       (OS.ticks w)).
Proof.
  intros (E1 & E2 & E3)%mode_apply Hask Hno. unfold AIAgent.apply_file.
  rewrite E1, E2, E3. simpl. unfold Spec.prompt in Hask. rewrite Hask. simpl.
  fold (Spec.live k).
  assert (Hskip : ∃ ex, OS.exists_ (Spec.live k) w = (inr ex, w)
                        ∧ AIAgent.backup_enabled self && ex = false).
  { destruct (OS.fs w !! Spec.live k) as [old|] eqn:E.
    - exists true. split; [by eapply exists_Some|].
      destruct Hno as [->|?]; [done | congruence].
    - exists false. split; [by apply exists_None | apply andb_false_r]. }
  destruct Hskip as (ex & Hex & Hand).
  rewrite (bind_eq _ _ _ _ _ Hex). rewrite Hand. run_effects.
  rewrite !count_checks_app. simpl. rewrite !Nat.add_0_r.
  rewrite <- !app_assoc. done.
Qed.








Lemma live_inj k1 k2 : Spec.live k1 = Spec.live k2 → k1 = k2.
Proof. unfold Spec.live, OS.joinpath. intros H. by do 2 apply append_inv_head in H. Qed.











(** The condition on the backup paths is needed: with the backup
    directory set to [/config], the backup of [automations.yaml] is
    copied onto the path of a dropped file of that name. *)
Example dropped_path_overwritten_by_backup :
  let self := AIAgent.Make "apply" true true "/config/ai_sandbox"
                ["automations.yaml"] "/config" in
  let o := OS.Oracle (λ _, "20260101_120000") (λ _, true) (λ _, Some true) in
  let f := "automations.yaml.20260101_120000.bak" in
  let w := OS.World {["/config/automations.yaml" := "[]";
                      Spec.live f := "kept?"]} [] 0 in
  let response :=
    "# FILE: " +:+ f +:+ Py.nl +:+ "x: 1" +:+ Py.nl +:+
    "# FILE: automations.yaml" +:+ Py.nl +:+ "- id: a1" in
  OS.plain f = true
  ∧ (f ∉ AIAgent.allowed_files self)
  ∧ OS.fs (AIAgent.process_response self o (λ _, None) response w).2 !! Spec.live f
    = Some "[]".
Proof.
  intros self o f w response. split; [reflexivity|]. split.
  - by intros [=]%list_elem_of_singleton.
  - by vm_compute.
Qed.

(** ** [YAMLHandler.merge] on documents *)

(** Induction on a document, with the property at hand for every value
    of a sequence or mapping. *)
Lemma value_ind (P : Doc.value → Prop) :
  (∀ a, P (Doc.Scalar a)) →
  (∀ items, Forall P items → P (Doc.Seq items)) →
  (∀ items, Forall (λ kv, P kv.2) items → P (Doc.Map items)) →
  ∀ v, P v.
Proof.
  intros Hs Hq Hm. fix IH 1. intros [a|items|items].
  - apply Hs.
  - apply Hq. induction items as [|v items IHitems]; constructor; [apply IH | done].
  - apply Hm. induction items as [|[k v] items IHitems]; constructor;
      [apply IH | done].
Qed.

Lemma all_Forall {A} (P : A → Prop) l : all P l ↔ Forall P l.
Proof.
  induction l as [|x l IH]; simpl; [by split; [constructor|]|].
  by rewrite Forall_cons, IH.
Qed.

Lemma all2_Forall2 {A B} (R : A → B → Prop) l1 l2 : all2 R l1 l2 ↔ Forall2 R l1 l2.
Proof.
  revert l1. induction l2 as [|y l2 IH]; intros [|x l1]; simpl.
  - split; [constructor | done].
  - split; [done | by intros ?%Forall2_cons_nil_inv].
  - split; [done | by intros ?%Forall2_nil_cons_inv].
  - by rewrite Forall2_cons, IH.
Qed.

Lemma wf_map items :
  Doc.wf (Doc.Map items) ↔ NoDup items.*1 ∧ Forall (λ kv, Doc.wf kv.2) items.
Proof. simpl. by rewrite all_Forall. Qed.

Section DictLaws.
Context {V : Type}.
Implicit Types (d : list (string * V)) (k : string) (v : V).

Lemma get_lookup d k v : NoDup d.*1 → (k, v) ∈ d → Dict.get k d = Some v.
Proof.
  induction d as [|[k' v'] d IH]; simpl; intros Hnd Hin.
  - by apply elem_of_nil in Hin.
  - apply NoDup_cons in Hnd as [Hk' Hnd].
    apply elem_of_cons in Hin as [[= -> ->]|Hin].
    + by rewrite String.eqb_refl.
    + destruct (String.eqb k k') eqn:E; [|by apply IH].
      apply String.eqb_eq in E. subst k'. exfalso. apply Hk'.
      apply list_elem_of_fmap. by exists (k, v).
Qed.

Lemma put_get_same d k v : Dict.get k d = Some v → Dict.put k v d = d.
Proof.
  induction d as [|[k' v'] d IH]; simpl; [done|].
  destruct (String.eqb k k') eqn:E.
  - apply String.eqb_eq in E. by intros [= ->]; subst.
  - intros H. by rewrite IH.
Qed.
End DictLaws.

Lemma merge_loop_same rec a items :
  NoDup a.*1 → items ⊆ a →
  Forall (λ kv, ∀ u, kv.2 = Doc.Map u → rec u kv.2 = u) items →
  Doc.merge_loop rec a items = a.
Proof.
  intros Hnd. induction items as [|[k v] items IH]; intros Hsub Hrec; [done|].
  apply Forall_cons in Hrec as [Hv Hrec]. simpl in Hv.
  assert (Hget : Dict.get k a = Some v).
  { apply get_lookup; [done|]. apply Hsub. by left. }
  assert (Hrest : items ⊆ a).
  { intros x Hx. apply Hsub. by right. }
  simpl. rewrite Hget. destruct v as [s|q|u].
  - rewrite put_get_same by done. by apply IH.
  - rewrite put_get_same by done. by apply IH.
  - rewrite (Hv u eq_refl). rewrite put_get_same by done. by apply IH.
Qed.

Lemma merge_into_same v :
  Doc.wf v → ∀ a, v = Doc.Map a → Doc.merge_into a v = a.
Proof.
  induction v as [s|q _|items IH] using value_ind; intros Hwf a [= <-].
  apply wf_map in Hwf as [Hnd Hwf]. simpl.
  apply merge_loop_same; [done | done |].
  rewrite Forall_forall in IH. rewrite Forall_forall in Hwf.
  apply Forall_forall. intros [k v] Hin u Hv.
  apply (IH _ Hin); [apply (Hwf _ Hin) | exact Hv].
Qed.

(** C9: merging a mapping with itself gives the mapping back. *)
Theorem merge_idempotent (a : list (string * Doc.value)) :
  Doc.wf (Doc.Map a) → Doc.merge a a = a.
Proof. intros Hwf. unfold Doc.merge. by apply merge_into_same. Qed.

Lemma merge_idempotent_witness :
  let a := [("automation", Doc.Map [("id", Doc.Scalar (Doc.Str "a1"));
                                    ("trigger", Doc.Seq [Doc.Scalar (Doc.Int 1)])]);
            ("mode", Doc.Scalar (Doc.Str "single"))] in
  Doc.merge a a = a.
Proof.
  intros a. apply merge_idempotent.
  simpl. repeat split; compute_done.
Defined.

(** ** [YAMLHandler.merge] on objects *)

Lemma setitem_frame h l key v h' :
  Obj.setitem h l key v = Some h' →
  ∃ items, h !! l = Some (Obj.ODict items)
           ∧ h' = <[l := Obj.ODict (Dict.put key v items)]> h.
Proof.
  unfold Obj.setitem. destruct (h !! l) as [[items|items]|]; [|done..].
  intros [= <-]. by exists items.
Qed.

Lemma subseteq_insert_fresh (g h : gmap positive Obj.obj) l o :
  g !! l = None → g ⊆ h → g ⊆ <[l := o]> h.
Proof.
  intros Hl Hsub. apply map_subseteq_spec. intros i x Hi.
  destruct (decide (l = i)) as [->|Hne]; [congruence|].
  rewrite lookup_insert_ne by done. by eapply lookup_weaken.
Qed.

(** The loop leaves every object of [g] as it is, when the recursive
    call does and [result] is not an object of [g]. *)
Lemma merge_loop_frame rec result g :
  g !! result = None →
  (∀ h b u h' m, rec h b u = Some (h', m) → h ⊆ h') →
  ∀ items h h', g ⊆ h → Obj.merge_loop rec result items h = Some h' → g ⊆ h'.
Proof.
  intros Hres Hrec. induction items as [|[key value] items IH]; intros h h' Hg.
  - by intros [= <-].
  - simpl.
    destruct (Obj.getitem h result key ≫= Obj.is_dict h) as [b|];
      [destruct (Obj.is_dict h value) as [u|]|].
    + destruct (rec h b u) as [[h1 m]|] eqn:Erec; [|done]. simpl.
      destruct (Obj.setitem h1 result key (Obj.VRef m)) as [h2|] eqn:Eset; [|done].
      simpl. apply IH.
      apply setitem_frame in Eset as (ritems & _ & ->).
      apply subseteq_insert_fresh; [done|].
      etrans; [exact Hg | by eapply Hrec].
    + destruct (Obj.setitem h result key value) as [h2|] eqn:Eset; [|done].
      simpl. apply IH.
      apply setitem_frame in Eset as (ritems & _ & ->).
      by apply subseteq_insert_fresh.
    + destruct (Obj.setitem h result key value) as [h2|] eqn:Eset; [|done].
      simpl. apply IH.
      apply setitem_frame in Eset as (ritems & _ & ->).
      by apply subseteq_insert_fresh.
Qed.

Lemma fresh_lookup (h : gmap positive Obj.obj) : h !! fresh (dom h) = None.
Proof. apply not_elem_of_dom. apply is_fresh. Qed.

(** [merge] leaves every object of the store as it is, and the
    dictionary it returns is a new one. *)
Lemma merge_frame fuel :
  ∀ h base update h' result,
    Obj.merge fuel h base update = Some (h', result) →
    h ⊆ h' ∧ result = fresh (dom h).
Proof.
  induction fuel as [|fuel IH]; intros h base update h' result; [done|].
  simpl.
  destruct (h !! base) as [[bitems|?]|]; [|done..].
  destruct (h !! update) as [[uitems|?]|]; [|done..].
  destruct (Obj.merge_loop _ _ _ _) as [h1|] eqn:Eloop; [|done].
  simpl. intros [= <- <-]. split; [|done].
  eapply merge_loop_frame in Eloop; [exact Eloop | apply fresh_lookup | |].
  - intros h0 b u h0' m Hm. by apply IH in Hm as [? _].
  - apply subseteq_insert_fresh; [apply fresh_lookup | done].
Qed.

Lemma repr_map h v kts :
  Obj.repr h v (Doc.Map kts)
  ↔ ∃ l kvs, v = Obj.VRef l ∧ h !! l = Some (Obj.ODict kvs)
             ∧ Spec.items_repr h kvs kts.
Proof.
  simpl. unfold Spec.items_repr.
  split; intros (l & kvs & ? & ? & H); exists l, kvs;
    (split; [done|]; split; [done|]); by apply all2_Forall2.
Qed.

Lemma repr_seq h v ts :
  Obj.repr h v (Doc.Seq ts)
  ↔ ∃ l vs, v = Obj.VRef l ∧ h !! l = Some (Obj.OList vs)
            ∧ Forall2 (Obj.repr h) vs ts.
Proof.
  simpl.
  split; intros (l & vs & ? & ? & H); exists l, vs;
    (split; [done|]; split; [done|]); by apply all2_Forall2.
Qed.

Lemma Forall2_impl_r {A B} (R R' : A → B → Prop) l1 l2 :
  Forall2 R l1 l2 → Forall (λ y, ∀ x, R x y → R' x y) l2 → Forall2 R' l1 l2.
Proof.
  induction 1 as [|x y l1 l2 Hxy _ IH]; intros Himp; [constructor|].
  apply Forall_cons in Himp as [Hy Himp]. constructor; [by apply Hy | by apply IH].
Qed.

(** A document of a store is the same document in a larger store. *)
Lemma repr_mono g h v t : g ⊆ h → Obj.repr g v t → Obj.repr h v t.
Proof.
  intros Hsub. revert v.
  induction t as [a|ts IH|kts IH] using value_ind; intros v.
  - done.
  - rewrite !repr_seq. intros (l & vs & -> & Hl & Hvs).
    exists l, vs. split; [done|]. split; [by eapply lookup_weaken|].
    by eapply Forall2_impl_r.
  - rewrite !repr_map. intros (l & kvs & -> & Hl & Hkvs).
    exists l, kvs. split; [done|]. split; [by eapply lookup_weaken|].
    unfold Spec.items_repr in *.
    eapply Forall2_impl_r; [exact Hkvs|].
    eapply Forall_impl; [exact IH|]. intros kt Hkt kv [? ?].
    split; [done | by apply Hkt].
Qed.

Lemma items_repr_mono g h kvs kts :
  g ⊆ h → Spec.items_repr g kvs kts → Spec.items_repr h kvs kts.
Proof.
  intros Hsub Hrel. unfold Spec.items_repr in *.
  eapply Forall2_impl; [exact Hrel|].
  intros kv kt [? ?]. split; [done | by eapply repr_mono].
Qed.

Lemma items_repr_get h kvs kts k :
  Spec.items_repr h kvs kts →
  option_Forall2 (Obj.repr h) (Dict.get k kvs) (Dict.get k kts).
Proof.
  induction 1 as [|[k1 v] [k2 t] kvs kts [Hk Hv] _ IH]; simpl; [constructor|].
  simpl in Hk. subst k2. destruct (String.eqb k k1); [by constructor | done].
Qed.

Lemma items_repr_put h kvs kts k v t :
  Spec.items_repr h kvs kts → Obj.repr h v t →
  Spec.items_repr h (Dict.put k v kvs) (Dict.put k t kts).
Proof.
  intros Hrel Hv.
  induction Hrel as [|[k1 v1] [k2 t1] kvs kts [Hk Hv1] Hrel IH]; simpl.
  - by repeat constructor.
  - simpl in Hk. subst k2. destruct (String.eqb k k1).
    + by constructor.
    + by constructor.
Qed.

Lemma is_dict_repr h v t :
  Obj.repr h v t →
  match t with
  | Doc.Map _ => ∃ l, v = Obj.VRef l ∧ Obj.is_dict h v = Some l
  | _ => Obj.is_dict h v = None
  end.
Proof.
  destruct t as [a|ts|kts].
  - by intros ->.
  - rewrite repr_seq. intros (l & vs & -> & Hl & _). simpl. by rewrite Hl.
  - rewrite repr_map. intros (l & kvs & -> & Hl & _). exists l. simpl.
    by rewrite Hl.
Qed.

Lemma getitem_dict h l items key :
  h !! l = Some (Obj.ODict items) → Obj.getitem h l key = Dict.get key items.
Proof. intros H. unfold Obj.getitem. by rewrite H. Qed.

Lemma setitem_dict h l items key v :
  h !! l = Some (Obj.ODict items) →
  Obj.setitem h l key v = Some (<[l := Obj.ODict (Dict.put key v items)]> h).
Proof. intros H. unfold Obj.setitem. by rewrite H. Qed.

(** Which way one turn of the two loops goes: both into the recursive
    call, or both into the plain assignment. *)
Lemma merge_step_cases g h ritems tr key value tv :
  g ⊆ h → Spec.items_repr g ritems tr → Obj.repr g value tv →
  (∃ tb' tu' b' u',
      Dict.get key tr = Some (Doc.Map tb') ∧ tv = Doc.Map tu'
      ∧ value = Obj.VRef u'
      ∧ Dict.get key ritems ≫= Obj.is_dict h = Some b'
      ∧ Obj.is_dict h value = Some u'
      ∧ Obj.repr g (Obj.VRef b') (Doc.Map tb'))
  ∨ ((∀ rec trest,
        Doc.merge_loop rec tr ((key, tv) :: trest)
        = Doc.merge_loop rec (Dict.put key tv tr) trest)
     ∧ (Dict.get key ritems ≫= Obj.is_dict h = None
        ∨ Obj.is_dict h value = None)).
Proof.
  intros Hsub Hrel Hvalue.
  pose proof (items_repr_get g ritems tr key Hrel) as Hget.
  pose proof (is_dict_repr h value tv (repr_mono _ _ _ _ Hsub Hvalue)) as Hdv.
  destruct (Dict.get key ritems) as [rv|] eqn:Er;
    destruct (Dict.get key tr) as [trv|] eqn:Et;
    inversion Hget as [? ? Hrv|]; subst.
  - pose proof (is_dict_repr h rv trv (repr_mono _ _ _ _ Hsub Hrv)) as Hdr.
    destruct trv as [a|ts|tb'].
    + right. split; [by intros; simpl; rewrite Et | by left].
    + right. split; [by intros; simpl; rewrite Et | by left].
    + destruct Hdr as (b' & -> & Hb'). destruct tv as [a|ts|tu'].
      * right. split; [by intros; simpl; rewrite Et | by right].
      * right. split; [by intros; simpl; rewrite Et | by right].
      * destruct Hdv as (u' & -> & Hu'). left.
        by exists tb', tu', b', u'.
  - right. split; [by intros; simpl; rewrite Et | by left].
Qed.

(** The loop on objects computes what the loop on documents computes. *)
Lemma merge_loop_refines rec trec r tu :
  (∀ h b u h' m, rec h b u = Some (h', m) → h ⊆ h') →
  Forall (λ kt, ∀ x, kt.2 = Doc.Map x → Spec.refines_at rec trec kt.2) tu →
  ∀ uitems h g ritems tr,
    g ⊆ h → g !! r = None → h !! r = Some (Obj.ODict ritems) →
    Spec.items_repr g ritems tr → Spec.items_repr g uitems tu →
    ∃ h' g' ritems',
      Obj.merge_loop rec r uitems h = Some h'
      ∧ g ⊆ g' ∧ g' ⊆ h'
      ∧ h' !! r = Some (Obj.ODict ritems')
      ∧ (∀ l, l ∈ dom h → l ∉ dom g → l ∉ dom g')
      ∧ Spec.items_repr g' ritems' (Doc.merge_loop trec tr tu).
Proof.
  intros Hframe. induction tu as [|[key tv] tu IH];
    intros Hrec uitems h g ritems tr Hsub Hgr Hr Hritems Huitems.
  - apply Forall2_nil_inv_r in Huitems as ->.
    exists h, g, ritems. by repeat split.
  - apply Forall2_cons_inv_r in Huitems
      as ([key' value] & urest & [Hkey Hvalue] & Hurest & ->).
    simpl in Hkey, Hvalue. subst key'.
    apply Forall_cons in Hrec as [Hrec1 Hrec]. simpl in Hrec1.
    assert (Hrdom : r ∈ dom h) by (apply elem_of_dom; by eexists).
    assert (Hgdom : r ∉ dom g) by by apply not_elem_of_dom.
    change (Obj.merge_loop rec r ((key, value) :: urest) h)
      with (match Obj.getitem h r key ≫= Obj.is_dict h, Obj.is_dict h value with
            | Some b, Some u =>
                '(h1, merged) ← rec h b u;
                h2 ← Obj.setitem h1 r key (Obj.VRef merged);
                Obj.merge_loop rec r urest h2
            | _, _ =>
                h2 ← Obj.setitem h r key value;
                Obj.merge_loop rec r urest h2
            end).
    rewrite (getitem_dict _ _ _ _ Hr).
    destruct (merge_step_cases g h ritems tr key value tv Hsub Hritems Hvalue)
      as [(tb' & tu' & b' & u' & Et & -> & -> & Eb & Eu & Hb')|[Htree Hheap]].
    + rewrite Eb, Eu.
      destruct (Hrec1 tu' eq_refl g h b' u' tb' Hsub Hb' Hvalue)
        as (h1 & m & g1 & Erec & Hh1 & Hg1 & Hg1h1 & Hfoot1 & Hm).
      rewrite Erec. simpl.
      assert (Hr1 : h1 !! r = Some (Obj.ODict ritems)) by by eapply lookup_weaken.
      rewrite (setitem_dict _ _ _ _ _ Hr1). simpl.
      assert (Hg1r : g1 !! r = None).
      { apply not_elem_of_dom. by apply Hfoot1. }
      destruct (IH Hrec urest
                  (<[r := Obj.ODict (Dict.put key (Obj.VRef m) ritems)]> h1)
                  g1 (Dict.put key (Obj.VRef m) ritems)
                  (Dict.put key (Doc.Map (trec tb' (Doc.Map tu'))) tr))
        as (h' & g' & ritems' & Eloop & Hg' & Hg'h' & Hr' & Hfoot & Hres).
      * by apply subseteq_insert_fresh.
      * done.
      * apply lookup_insert_eq.
      * apply items_repr_put; [by eapply items_repr_mono | done].
      * by eapply items_repr_mono.
      * exists h', g', ritems'. split; [done|]. split; [by etrans|].
        split; [done|]. split; [done|]. split.
        { intros l Hl Hlg. apply Hfoot; [|by apply Hfoot1].
          apply elem_of_dom. destruct (decide (r = l)) as [<-|Hne].
          - rewrite lookup_insert_eq. by eexists.
          - rewrite lookup_insert_ne by done.
            apply elem_of_dom in Hl as [o Hl]. exists o. by eapply lookup_weaken. }
        simpl. rewrite Et. exact Hres.
    + destruct (IH Hrec urest
                  (<[r := Obj.ODict (Dict.put key value ritems)]> h)
                  g (Dict.put key value ritems) (Dict.put key tv tr))
        as (h' & g' & ritems' & Eloop & Hg' & Hg'h' & Hr' & Hfoot & Hres).
      * by apply subseteq_insert_fresh.
      * done.
      * apply lookup_insert_eq.
      * by apply items_repr_put.
      * done.
      * exists h', g', ritems'. rewrite Htree.
        split; [|split; [done|]; split; [done|]; split; [done|]; split; [|done]].
        { rewrite <- Eloop.
          destruct Hheap as [->| ->];
            [|destruct (Dict.get key ritems ≫= Obj.is_dict h)];
            by rewrite (setitem_dict _ _ _ _ _ Hr). }
        intros l Hl Hlg. apply Hfoot; [|done].
        apply elem_of_dom. destruct (decide (r = l)) as [<-|Hne].
        -- rewrite lookup_insert_eq. by eexists.
        -- rewrite lookup_insert_ne by done. by apply elem_of_dom.
Qed.

Lemma max_over_le {A} (f : A → nat) l x : x ∈ l → (f x ≤ max_over f l)%nat.
Proof.
  induction l as [|y l IH]; intros Hx; [by apply elem_of_nil in Hx|].
  simpl. apply elem_of_cons in Hx as [->|Hx]; [lia|]. apply IH in Hx. lia.
Qed.

Lemma merge_frame_only fuel h b u h' m :
  Obj.merge fuel h b u = Some (h', m) → h ⊆ h'.
Proof. intros H. by apply merge_frame in H as [? _]. Qed.

(** With fuel for the depth of the update, [merge] on objects returns,
    and returns what [merge] on documents computes. *)
Lemma merge_refines_fuel tv :
  ∀ tu, tv = Doc.Map tu → ∀ fuel, (Doc.depth tv ≤ fuel)%nat →
        Spec.refines_at (Obj.merge fuel) Doc.merge_into tv.
Proof.
  induction tv as [a|ts _|items IH] using value_ind; intros tu [= <-] fuel Hfuel.
  destruct fuel as [|fuel]; [simpl in Hfuel; lia|].
  simpl in Hfuel. apply Nat.succ_le_mono in Hfuel.
  intros g h b u tb Hsub Hb Hu.
  apply repr_map in Hb as (? & bitems & [= <-] & Hgb & Hbitems).
  apply repr_map in Hu as (? & uitems & [= <-] & Hgu & Huitems).
  pose proof (lookup_weaken _ _ _ _ Hgb Hsub) as Hhb.
  pose proof (lookup_weaken _ _ _ _ Hgu Hsub) as Hhu.
  set (r := fresh (dom h)).
  assert (Hhr : h !! r = None) by apply fresh_lookup.
  assert (Hgr : g !! r = None).
  { destruct (g !! r) as [o|] eqn:E; [|done].
    by rewrite (lookup_weaken _ _ _ _ E Hsub) in Hhr. }
  destruct (merge_loop_refines (Obj.merge fuel) Doc.merge_into r items
              (merge_frame_only fuel)) with
    (uitems := uitems) (h := <[r := Obj.ODict bitems]> h) (g := g)
    (ritems := bitems) (tr := tb)
    as (h' & g' & ritems' & Eloop & Hg' & Hg'h' & Hr' & Hfoot & Hres).
  { rewrite Forall_forall in IH. apply Forall_forall. intros kt Hkt x Hx.
    apply (IH kt Hkt x Hx). etrans; [|exact Hfuel].
    by apply (max_over_le (λ kv, Doc.depth kv.2)). }
  { by apply subseteq_insert_fresh. }
  { done. }
  { apply lookup_insert_eq. }
  { done. }
  { done. }
  assert (Hg'r : g' !! r = None).
  { apply not_elem_of_dom. apply Hfoot; [|by apply not_elem_of_dom].
    apply elem_of_dom. rewrite lookup_insert_eq. by eexists. }
  exists h', r, (<[r := Obj.ODict ritems']> g').
  split.
  { simpl. rewrite Hhb, Hhu. fold r. by rewrite Eloop. }
  split.
  { eapply (merge_loop_frame (Obj.merge fuel) r h); [done | | | exact Eloop].
    - apply merge_frame_only.
    - by apply subseteq_insert_fresh. }
  split; [by apply subseteq_insert_fresh|].
  split; [by apply insert_subseteq_l|].
  split.
  { intros l Hl Hlg. apply not_elem_of_dom.
    assert (r ≠ l) by (intros <-; by apply not_elem_of_dom in Hhr).
    rewrite lookup_insert_ne by done. apply not_elem_of_dom. apply Hfoot; [|done].
    apply elem_of_dom. rewrite lookup_insert_ne by done. by apply elem_of_dom. }
  apply repr_map. exists r, ritems'. split; [done|].
  split; [apply lookup_insert_eq|].
  eapply items_repr_mono; [|exact Hres]. by apply subseteq_insert_fresh.
Qed.

(** X20: [merge] on objects and [merge] on documents: for two dictionaries of
    the store that are the mappings [tb] and [tu], and fuel for the
    depth of [tu], the call returns a dictionary that is the mapping
    [Doc.merge tb tu]. *)
Theorem merge_on_objects_refines h b u tb tu fuel :
  Obj.repr h (Obj.VRef b) (Doc.Map tb) →
  Obj.repr h (Obj.VRef u) (Doc.Map tu) →
  (Doc.depth (Doc.Map tu) ≤ fuel)%nat →
  ∃ h' m, Obj.merge fuel h b u = Some (h', m)
          ∧ Obj.repr h' (Obj.VRef m) (Doc.Map (Doc.merge tb tu)).
Proof.
  intros Hb Hu Hfuel.
  destruct (merge_refines_fuel (Doc.Map tu) tu eq_refl fuel Hfuel h h b u tb)
    as (h' & m & g' & Em & _ & _ & Hg' & _ & Hm); [done..|].
  exists h', m. split; [done|]. by eapply repr_mono.
Qed.

(** [merge] of a dictionary with itself, on objects: with fuel for its
    depth the call returns a new dictionary that is the same document. *)
Lemma merge_objects_idempotent h a ta fuel :
  Obj.repr h (Obj.VRef a) (Doc.Map ta) → Doc.wf (Doc.Map ta) →
  (Doc.depth (Doc.Map ta) ≤ fuel)%nat →
  ∃ h' m, Obj.merge fuel h a a = Some (h', m)
          ∧ h !! m = None
          ∧ Obj.repr h' (Obj.VRef m) (Doc.Map ta)
          ∧ Obj.repr h' (Obj.VRef a) (Doc.Map ta).
Proof.
  intros Ha Hwf Hfuel.
  destruct (merge_refines_fuel (Doc.Map ta) ta eq_refl fuel Hfuel h h a a ta)
    as (h' & m & g' & Em & _ & _ & Hg' & _ & Hm0); [done..|].
  assert (Hm : Obj.repr h' (Obj.VRef m) (Doc.Map (Doc.merge ta ta)))
    by by eapply repr_mono.
  exists h', m. split; [done|].
  pose proof (merge_frame _ _ _ _ _ _ Em) as [Hsub ->].
  split; [apply fresh_lookup|]. split.
  - unfold Doc.merge in Hm. by rewrite (merge_into_same _ Hwf ta eq_refl) in Hm.
  - by eapply repr_mono.
Qed.

Lemma merge_arguments_are_dicts fuel h b u h' m :
  Obj.merge fuel h b u = Some (h', m) →
  ∃ bitems uitems, h !! b = Some (Obj.ODict bitems)
                   ∧ h !! u = Some (Obj.ODict uitems).
Proof.
  destruct fuel as [|fuel]; [done|]. simpl.
  destruct (h !! b) as [[bitems|?]|]; [|done..].
  destruct (h !! u) as [[uitems|?]|]; [|done..].
  intros _. by exists bitems, uitems.
Qed.

(** C10: [merge] changes neither of its arguments.  When the call
    returns, the dictionaries [base] and [update] hold the items they
    held before, every object that was in the store is unchanged, so
    every document of the old store (those under [base] and [update]
    among them) is the same document afterwards, and the dictionary
    returned is a new object, neither [base] nor [update]. *)
Theorem merge_mutates_neither_argument
    (fuel : nat) (h h' : gmap positive Obj.obj) (base update result : positive) :
  Obj.merge fuel h base update = Some (h', result) →
  h' !! base = h !! base
  ∧ h' !! update = h !! update
  ∧ h ⊆ h'
  ∧ (∀ v t, Obj.repr h v t → Obj.repr h' v t)
  ∧ h !! result = None ∧ result ≠ base ∧ result ≠ update.
Proof.
  intros Hm.
  destruct (merge_arguments_are_dicts _ _ _ _ _ _ Hm)
    as (bitems & uitems & Hb & Hu).
  apply merge_frame in Hm as [Hsub ->].
  pose proof (fresh_lookup h) as Hfresh.
  split; [by rewrite Hb; eapply lookup_weaken|].
  split; [by rewrite Hu; eapply lookup_weaken|].
  split; [done|]. split; [intros v t; by apply repr_mono|].
  split; [done|]. split; intros E; rewrite E in Hfresh; congruence.
Qed.

Lemma merge_mutates_neither_argument_witness :
  let h : gmap positive Obj.obj :=
    {[ 1%positive := Obj.ODict [("a", Obj.VRef 3%positive);
                                ("b", Obj.VScalar (Doc.Int 1))];
       2%positive := Obj.ODict [("a", Obj.VRef 4%positive);
                                ("c", Obj.VRef 5%positive)];
       3%positive := Obj.ODict [("x", Obj.VScalar (Doc.Int 1))];
       4%positive := Obj.ODict [("y", Obj.VScalar (Doc.Int 2))];
       5%positive := Obj.OList [Obj.VScalar (Doc.Str "s")] ]} in
  ∃ h' result,
    Obj.merge 2 h 1%positive 2%positive = Some (h', result)
    ∧ h' !! 1%positive = h !! 1%positive
    ∧ h' !! 2%positive = h !! 2%positive
    ∧ h' !! 3%positive = h !! 3%positive.
Proof.
  intros h.
  destruct (Obj.merge 2 h 1%positive 2%positive) as [[h' result]|] eqn:E;
    [|by vm_compute in E].
  exists h', result. split; [done|].
  destruct (merge_mutates_neither_argument _ _ _ _ _ _ E)
    as (H1 & H2 & Hsub & _). split; [done|]. split; [done|].
  assert (E3 : h !! 3%positive
               = Some (Obj.ODict [("x", Obj.VScalar (Doc.Int 1))]))
    by by vm_compute.
  rewrite E3. by eapply lookup_weaken.
Defined.

(** ** The scenarios of the specification, run on the model *)

(** Scenario A, for both parsers. *)
Example scenario_A :
  let text := "# FILE: automations.yaml" +:+ Py.nl +:+ "```yaml" +:+ Py.nl +:+
              "- id: a1" +:+ Py.nl +:+ "  alias: Test" +:+ Py.nl +:+
              "```" +:+ Py.nl in
  let parsed := [("automations.yaml", "- id: a1" +:+ Py.nl +:+ "  alias: Test")] in
  AIAgent._parse_response AIAgent.default text = parsed
  ∧ BaseAgent.extract_yaml_from_response text = inr parsed.
Proof. by vm_compute. Qed.

(** A marker with nothing after it makes [extract_yaml_from_response]
    raise [IndexError]; [_parse_response] ignores it. *)
Example marker_without_name :
  BaseAgent.extract_yaml_from_response "# FILE:" = inl Py.IndexError
  ∧ AIAgent.captured ("# FILE:" +:+ Py.nl +:+ "x: 1") = [].
Proof. by vm_compute. Qed.

(** A read-only cycle records [displayed] and does nothing. *)
Example read_only_cycle :
  let self := AIAgent.Make "read_only" true true "/config/ai_sandbox"
                ["automations.yaml"] "/config/.ai_backups" in
  let o := OS.Oracle (λ _, "20260101_120000") (λ _, true) (λ _, Some true) in
  let w := OS.World {["/config/automations.yaml" := "[]"]} [] 0 in
  AIAgent._apply_changes self o [("automations.yaml", "- id: a1")] w
  = (inr (AIAgent.Results true
            [AIAgent.Entry "automations.yaml" "displayed" None]
            (Some "read_only")), w).
Proof. by vm_compute. Qed.

(** [merge] on documents: values of [update] win, mappings are merged
    key by key, sequences are replaced, new keys come last. *)
Example merge_documents :
  Doc.merge
    [("a", Doc.Map [("x", Doc.Scalar (Doc.Int 1)); ("y", Doc.Scalar (Doc.Int 2))]);
     ("l", Doc.Seq [Doc.Scalar (Doc.Int 1); Doc.Scalar (Doc.Int 2)]);
     ("s", Doc.Scalar (Doc.Str "old"))]
    [("l", Doc.Seq [Doc.Scalar (Doc.Int 3)]);
     ("a", Doc.Map [("y", Doc.Scalar (Doc.Int 20)); ("z", Doc.Scalar Doc.Null)]);
     ("n", Doc.Scalar (Doc.Bool true))]
  = [("a", Doc.Map [("x", Doc.Scalar (Doc.Int 1)); ("y", Doc.Scalar (Doc.Int 20));
                    ("z", Doc.Scalar Doc.Null)]);
     ("l", Doc.Seq [Doc.Scalar (Doc.Int 3)]);
     ("s", Doc.Scalar (Doc.Str "old"));
     ("n", Doc.Scalar (Doc.Bool true))].
Proof. reflexivity. Qed.

(** [merge] on objects: the result is the new dictionary 6, the nested
    merge is the new dictionary 7, and the list of [update] is shared
    with the result, not copied. *)
Example merge_objects :
  let h : gmap positive Obj.obj :=
    {[ 1%positive := Obj.ODict [("a", Obj.VRef 3%positive);
                                ("b", Obj.VScalar (Doc.Int 1))];
       2%positive := Obj.ODict [("a", Obj.VRef 4%positive);
                                ("c", Obj.VRef 5%positive)];
       3%positive := Obj.ODict [("x", Obj.VScalar (Doc.Int 1))];
       4%positive := Obj.ODict [("y", Obj.VScalar (Doc.Int 2))];
       5%positive := Obj.OList [Obj.VScalar (Doc.Str "s")] ]} in
  ∃ h', Obj.merge 2 h 1%positive 2%positive = Some (h', 6%positive)
        ∧ h' !! 6%positive
          = Some (Obj.ODict [("a", Obj.VRef 7%positive);
                             ("b", Obj.VScalar (Doc.Int 1));
                             ("c", Obj.VRef 5%positive)])
        ∧ h' !! 7%positive
          = Some (Obj.ODict [("x", Obj.VScalar (Doc.Int 1));
                             ("y", Obj.VScalar (Doc.Int 2))])
        ∧ Obj.merge 1 h 1%positive 2%positive = None.
Proof.
  intros h.
  destruct (Obj.merge 2 h 1%positive 2%positive) as [[h' r]|] eqn:E;
    [|by vm_compute in E].
  exists h'. vm_compute in E. injection E as <- <-. by vm_compute.
Qed.

(** * More of the code *)

(** ** The parsers: markers, names and content *)

(** ** More on the two parsers *)










Section PutKeys.
Context {V : Type}.
Implicit Types (d : list (string * V)) (k : string) (v : V).

Lemma keys_put k v d :
  Dict.keys (Dict.put k v d) = Dict.keys d
  ∨ ((k ∉ Dict.keys d) ∧ Dict.keys (Dict.put k v d) = Dict.keys d ++ [k]).
Proof.
  unfold Dict.keys. induction d as [|[k' v'] d IH].
  - right. split; [apply not_elem_of_nil | done].
  - change (Dict.put k v ((k', v') :: d))
      with (if String.eqb k k' then (k, v) :: d else (k', v') :: Dict.put k v d).
    destruct (String.eqb k k') eqn:E.
    + apply String.eqb_eq in E. subst k'. by left.
    + apply String.eqb_neq in E. rewrite !fmap_cons. simpl.
      destruct IH as [->|[Hk ->]]; [by left|].
      right. split; [|done]. by intros [?|?]%elem_of_cons.
Qed.

Lemma keys_put_NoDup k v d : NoDup (Dict.keys d) → NoDup (Dict.keys (Dict.put k v d)).
Proof.
  intros Hnd. destruct (keys_put k v d) as [->|[Hk ->]]; [done|].
  apply NoDup_app. split; [done|]. split; [|apply NoDup_singleton].
  intros x Hx ->%list_elem_of_singleton. done.
Qed.


End PutKeys.






Lemma split_go_first sep cur a b :
  Py.lacks sep a = true →
  Py.split_go sep cur (a +:+ String sep b)
  = (cur +:+ a) :: Py.split_go sep EmptyString b.
Proof.
  revert cur. induction a as [|c a IH]; intros cur Ha.
  - rewrite append_nil_l, append_nil_r. simpl. by rewrite Ascii.eqb_refl.
  - simpl in Ha. apply andb_prop in Ha as [Hc Ha]. apply negb_true_iff in Hc.
    rewrite append_cons. simpl. rewrite Hc, IH by done. by rewrite append_assoc.
Qed.

Lemma split_ws_go_truthy cur s :
  Forall (λ tok, tok ≠ EmptyString) (Py.split_ws_go cur s).
Proof.
  revert cur. induction s as [|c s IH]; intros cur; simpl.
  - destruct cur; by repeat constructor.
  - destruct (Py.isspace c); [|apply IH].
    destruct cur; [apply IH|]. constructor; [done | apply IH].
Qed.

(** The lines of a body that are neither markers nor fences are all
    appended to the buffer. *)
Lemma base_loop_content lines st :
  Forall (λ line, Spec.content_line line = true) lines →
  BaseAgent.in_yaml st = true →
  BaseAgent.loop st lines
  = inr (BaseAgent.Locals (BaseAgent.files st) (BaseAgent.current_file st)
           (BaseAgent.current_content st ++ lines) true).
Proof.
  intros Hlines. revert st. induction Hlines as [|line lines Hl _ IH]; intros st Hy.
  - simpl. rewrite app_nil_r. destruct st. simpl in Hy. by subst.
  - unfold Spec.content_line, Spec.is_marker in Hl.
    apply andb_prop in Hl as [[H1 H2]%andb_prop H3].
    apply negb_true_iff in H1, H2, H3.
    simpl. unfold BaseAgent.step. rewrite H1, H2, H3, Hy. simpl.
    rewrite IH by done. simpl. by rewrite <- app_assoc.
Qed.

Lemma ai_loop_content lines st f :
  Forall (λ line, Spec.content_line line = true) lines →
  AIAgent.in_yaml_block st = true → AIAgent.current_file st = Some f →
  f ≠ EmptyString →
  fold_left AIAgent.step lines st
  = AIAgent.Locals (AIAgent.files st) (Some f)
      (AIAgent.current_content st ++ lines) true.
Proof.
  intros Hlines. revert st. induction Hlines as [|line lines Hl _ IH];
    intros st Hy Hcf Hf.
  - simpl. rewrite app_nil_r. destruct st. simpl in Hy, Hcf. by subst.
  - unfold Spec.content_line, Spec.is_marker in Hl.
    apply andb_prop in Hl as [[H1 H2]%andb_prop H3].
    apply negb_true_iff in H1, H2, H3.
    simpl. unfold AIAgent.step at 2. rewrite H1, H2, H3. simpl.
    assert (Hc : AIAgent.capturing st = true).
    { unfold AIAgent.capturing. rewrite Hy, Hcf. by destruct f. }
    rewrite Hc, IH by done. simpl. by rewrite <- app_assoc.
Qed.

(** X4: capture is verbatim.  For an answer that is one marker line
    followed by a body whose lines are neither markers nor fences, the
    parsers return the body, byte for byte, under the name of the marker
    line: its first word for [extract_yaml_from_response], all of its
    rest for [_parse_response], which returns the file when that name is
    in the allow-list and nothing otherwise. *)
Theorem marker_and_body_round_trip (line body : string) :
  Py.lacks Py.LF line = true →
  Spec.is_marker line = true →
  Forall (λ l, Spec.content_line l = true) (Py.split body Py.LF) →
  (∀ tok, head (Py.split_ws (Spec.marker_rest line)) = Some tok →
          BaseAgent.extract_yaml_from_response (line +:+ Py.nl +:+ body)
          = inr [(tok, body)])
  ∧ (Spec.marker_rest line ≠ EmptyString →
     AIAgent.captured (line +:+ Py.nl +:+ body) = [(Spec.marker_rest line, body)]
     ∧ ∀ self,
         AIAgent._parse_response self (line +:+ Py.nl +:+ body)
         = if str_in (Spec.marker_rest line) (AIAgent.allowed_files self)
           then [(Spec.marker_rest line, body)] else []).
Proof.
  intros Hline Hm Hbody.
  assert (Hsplit : Py.split (line +:+ Py.nl +:+ body) Py.LF
                   = line :: Py.split body Py.LF).
  { unfold Py.split, Py.nl. rewrite append_cons, append_nil_l.
    by rewrite split_go_first. }
  assert (Hjoin : Py.join Py.nl (Py.split body Py.LF) = body).
  { apply (join_split_go Py.LF EmptyString). }
  assert (Hne : Py.split body Py.LF ≠ []) by apply split_go_not_nil.
  split.
  - intros tok Htok. unfold BaseAgent.extract_yaml_from_response.
    rewrite Hsplit. simpl. unfold BaseAgent.step at 1.
    fold (Spec.is_marker line). fold (Spec.marker_rest line). rewrite Hm.
    destruct (Py.split_ws (Spec.marker_rest line)) as [|tok' toks] eqn:Etok;
      [done|]. injection Htok as ->.
    rewrite base_loop_content by done. simpl.
    unfold BaseAgent.flush, BaseAgent.pending. simpl.
    pose proof (split_ws_go_truthy EmptyString (Spec.marker_rest line)) as Ht.
    fold (Py.split_ws (Spec.marker_rest line)) in Ht. rewrite Etok in Ht.
    apply Forall_cons in Ht as [Ht _].
    destruct (Py.split body Py.LF); [done|]. rewrite Hjoin.
    by destruct tok.
  - intros Hname.
    assert (Hcap : AIAgent.captured (line +:+ Py.nl +:+ body)
                   = [(Spec.marker_rest line, body)]).
    { unfold AIAgent.captured. rewrite Hsplit. simpl. unfold AIAgent.step at 2.
      fold (Spec.is_marker line). fold (Spec.marker_rest line). rewrite Hm.
      rewrite (ai_loop_content _ _ (Spec.marker_rest line)) by done. simpl.
      unfold AIAgent.flush, AIAgent.pending. simpl.
      destruct (Py.split body Py.LF); [done|]. rewrite Hjoin.
      by destruct (Spec.marker_rest line). }
    split; [done|]. intros self. unfold AIAgent._parse_response.
    rewrite Hcap. simpl. by destruct (str_in _ _).
Qed.

Lemma marker_and_body_round_trip_witness :
  let body := "- id: a1" +:+ Py.nl +:+ "  alias: Test  " +:+ Py.nl in
  BaseAgent.extract_yaml_from_response
    ("# FILE: automations.yaml (new)" +:+ Py.nl +:+ body)
  = inr [("automations.yaml", body)].
Proof.
  intros body.
  apply (marker_and_body_round_trip "# FILE: automations.yaml (new)" body).
  - reflexivity.
  - reflexivity.
  - vm_compute. repeat constructor.
  - reflexivity.
Defined.

(** ** The allow-list of the environment *)

(** ** The allow-list read from the environment *)

Lemma lstrip_head s :
  Py.lstrip s = EmptyString
  ∨ ∃ c t, Py.lstrip s = String c t ∧ Py.isspace c = false.
Proof.
  induction s as [|c s IH]; simpl; [by left|].
  destruct (Py.isspace c) eqn:E; [done|]. right. by exists c, s.
Qed.

Lemma rstrip_head c t :
  Py.isspace c = false → ∃ r, Py.rstrip (String c t) = String c r.
Proof. intros Hc. simpl. rewrite Hc. destruct (Py.rstrip t); by eexists. Qed.

Lemma rstrip_idem s : Py.rstrip (Py.rstrip s) = Py.rstrip s.
Proof.
  induction s as [|c s IH]; [done|]. simpl.
  destruct (Py.rstrip s) as [|d r] eqn:E.
  - destruct (Py.isspace c) eqn:Hc; [done|]. simpl. by rewrite Hc.
  - change (Py.rstrip (String c (String d r)))
      with (match Py.rstrip (String d r) with
            | EmptyString => if Py.isspace c then EmptyString else String c EmptyString
            | x => String c x
            end).
    by rewrite IH.
Qed.

(** [strip] leaves a stripped string as it is. *)
Lemma strip_idem s : Py.strip (Py.strip s) = Py.strip s.
Proof.
  unfold Py.strip. destruct (lstrip_head s) as [->|(c & t & -> & Hc)]; [done|].
  destruct (rstrip_head c t Hc) as [r Hr]. rewrite Hr. simpl Py.lstrip.
  rewrite Hc, <- Hr. apply rstrip_idem.
Qed.

Lemma lacks_lstrip c s : Py.lacks c s = true → Py.lacks c (Py.lstrip s) = true.
Proof.
  induction s as [|x s IH]; [done|]. simpl. intros H.
  apply andb_prop in H as [Hx Hs].
  destruct (Py.isspace x); [by apply IH|]. simpl. by rewrite Hx, Hs.
Qed.

Lemma lacks_rstrip c s : Py.lacks c s = true → Py.lacks c (Py.rstrip s) = true.
Proof.
  induction s as [|x s IH]; [done|]. simpl. intros H.
  apply andb_prop in H as [Hx Hs]. specialize (IH Hs).
  destruct (Py.rstrip s) as [|d r].
  - destruct (Py.isspace x); [done|]. simpl. by rewrite Hx.
  - simpl. simpl in IH. by rewrite Hx, IH.
Qed.

Lemma lacks_strip c s : Py.lacks c s = true → Py.lacks c (Py.strip s) = true.
Proof. intros H. unfold Py.strip. by apply lacks_rstrip, lacks_lstrip. Qed.

Lemma lacks_snoc c cur x :
  Py.lacks c cur = true → Ascii.eqb x c = false →
  Py.lacks c (cur +:+ String x EmptyString) = true.
Proof. intros Hcur Hx. rewrite lacks_append, Hcur. simpl. by rewrite Hx. Qed.

(** The fields of [s.split(sep)] do not hold the separator. *)
Lemma split_go_fields_lack sep cur s :
  Py.lacks sep cur = true →
  Forall (λ field, Py.lacks sep field = true) (Py.split_go sep cur s).
Proof.
  revert cur. induction s as [|x s IH]; intros cur Hcur; simpl.
  - by repeat constructor.
  - destruct (Ascii.eqb x sep) eqn:E.
    + constructor; [done | by apply IH].
    + apply IH. by apply lacks_snoc.
Qed.

(** What both ways of reading [ALLOWED_FILES] keep of a value that is
    not empty. *)
Lemma allowed_fields files_str f :
  f ∈ List.filter Py.truthy (map Py.strip (Py.split files_str ",")) →
  f ≠ EmptyString ∧ Py.strip f = f ∧ Py.lacks "," f = true
  ∧ ∃ field, field ∈ Py.split files_str "," ∧ f = Py.strip field.
Proof.
  rewrite list_elem_of_In, filter_In, in_map_iff.
  intros [(field & <- & Hfield%list_elem_of_In) Ht].
  split; [by intros E; rewrite E in Ht|]. split; [apply strip_idem|].
  split; [|by exists field].
  apply lacks_strip.
  pose proof (split_go_fields_lack "," EmptyString files_str eq_refl) as Hall.
  rewrite Forall_forall in Hall. by apply Hall.
Qed.

(** X5: the allow-list read from [ALLOWED_FILES].  Without a value the
    agent's own list stands.  With a value, every name is a field
    between commas with the white space around it taken off: it is not
    empty, has no white space at either end and no comma; and a value
    of commas and white space only gives the empty allow-list, not the
    agent's own. *)
Theorem allowed_files_from_environment (files_str : string) :
  (files_str = EmptyString →
   AIAgent._parse_allowed_files files_str = AIAgent.allowed_files AIAgent.default
   ∧ length (BaseAgent._get_allowed_files files_str) = 12)
  ∧ (files_str ≠ EmptyString →
     AIAgent._parse_allowed_files files_str = BaseAgent._get_allowed_files files_str
     ∧ (∀ f, f ∈ AIAgent._parse_allowed_files files_str →
             f ≠ EmptyString ∧ Py.strip f = f ∧ Py.lacks "," f = true
             ∧ ∃ field, field ∈ Py.split files_str "," ∧ f = Py.strip field)
     ∧ (Forall (λ field, Py.strip field = EmptyString) (Py.split files_str ",") →
        AIAgent._parse_allowed_files files_str = [])).
Proof.
  split; [by intros ->|]. intros Hne.
  assert (Ht : Py.truthy files_str = true) by by destruct files_str.
  unfold AIAgent._parse_allowed_files, BaseAgent._get_allowed_files.
  rewrite Ht. simpl. split; [done|]. split; [apply allowed_fields|].
  induction 1 as [|field fields Hf _ IH]; [done|]. simpl.
  by rewrite Hf.
Qed.

Lemma allowed_files_from_environment_witness :
  AIAgent._parse_allowed_files " automations.yaml , ,scripts.yaml,"
  = ["automations.yaml"; "scripts.yaml"]
  ∧ AIAgent._parse_allowed_files " , " = [].
Proof.
  split; [reflexivity|].
  apply (proj2 (allowed_files_from_environment " , ")); [done|].
  by repeat constructor.
Defined.

(** ** [_apply_changes]: the modes *)

(** ** [AIAgent._apply_changes]: the modes without effect *)

Lemma for_each_pure {A B} (body : B → A → OS.M B) (g : B → A → B) l :
  (∀ acc x w, body acc x w = (inr (g acc x), w)) →
  ∀ acc w, OS.for_each body l acc w = (inr (fold_left g l acc), w).
Proof.
  intros Hbody. induction l as [|x l IH]; intros acc w; [done|].
  change (OS.for_each body (x :: l) acc) with (body acc x ≫= OS.for_each body l).
  by rewrite (bind_eq _ _ _ _ _ (Hbody acc x w)), IH.
Qed.

Lemma fold_left_snoc_map {A B} (f : A → B) l acc :
  fold_left (λ acc x, acc ++ [f x]) l acc = acc ++ map f l.
Proof.
  revert acc. induction l as [|x l IH]; intros acc; simpl.
  - by rewrite app_nil_r.
  - by rewrite IH, <- app_assoc.
Qed.

Lemma fold_left_id {A B} (l : list A) (acc : B) : fold_left (λ acc _, acc) l acc = acc.
Proof. by induction l. Qed.

(** X6: a read-only cycle records [displayed] for every file, in order,
    and does nothing else: the files, the events and the clock are as
    before. *)
Theorem read_only_changes_nothing
    (self : AIAgent.t) (o : OS.oracle) (files : list (string * string))
    (w : OS.world) :
  AIAgent.mode self = "read_only" →
  AIAgent._apply_changes self o files w
  = (inr (AIAgent.Results true
            (map (λ kv, AIAgent.Entry kv.1 "displayed" None) files)
            (Some "read_only")), w).
Proof.
  intros Hm. unfold AIAgent._apply_changes.
  assert (Hbody : ∀ acc kv w0,
             AIAgent.apply_file self o acc kv w0
             = (inr (acc ++ [AIAgent.Entry kv.1 "displayed" None]), w0)).
  { intros acc kv w0. unfold AIAgent.apply_file. by rewrite Hm. }
  rewrite (bind_eq _ _ _ _ _ (for_each_pure _ _ files Hbody [] w)).
  by rewrite fold_left_snoc_map, Hm.
Qed.

Lemma read_only_changes_nothing_witness :
  let self := AIAgent.Make "read_only" true true "/config/ai_sandbox"
                ["automations.yaml"] "/config/.ai_backups" in
  let o := OS.Oracle (λ _, "20260101_120000") (λ _, true) (λ _, Some true) in
  let w := OS.World {["/config/automations.yaml" := "[]"]} [] 0 in
  (AIAgent._apply_changes self o [("automations.yaml", "- id: a1")] w).2 = w.
Proof.
  intros self o w.
  by rewrite (read_only_changes_nothing self o _ w eq_refl).
Defined.

(** X7: a mode that is none of [read_only], [dry_run] and [apply] (a
    misspelt [AI_MODE], say) makes the cycle do nothing at all: no file
    is staged or written, no entry is recorded, and the cycle still
    reports success. *)
Theorem unknown_mode_does_nothing
    (self : AIAgent.t) (o : OS.oracle) (files : list (string * string))
    (w : OS.world) :
  AIAgent.mode self ≠ "read_only" →
  AIAgent.mode self ≠ "dry_run" →
  AIAgent.mode self ≠ "apply" →
  AIAgent._apply_changes self o files w
  = (inr (AIAgent.Results true [] (Some (AIAgent.mode self))), w).
Proof.
  intros H1%String.eqb_neq H2%String.eqb_neq H3%String.eqb_neq.
  unfold AIAgent._apply_changes.
  assert (Hbody : ∀ acc (kv : string * string) w0,
             AIAgent.apply_file self o acc kv w0 = (inr acc, w0)).
  { intros acc kv w0. unfold AIAgent.apply_file. by rewrite H1, H2, H3. }
  rewrite (bind_eq _ _ _ _ _ (for_each_pure _ (λ acc _, acc) files Hbody [] w)).
  by rewrite fold_left_id.
Qed.

Lemma unknown_mode_does_nothing_witness :
  let self := AIAgent.Make "Apply" true true "/config/ai_sandbox"
                ["automations.yaml"] "/config/.ai_backups" in
  let o := OS.Oracle (λ _, "20260101_120000") (λ _, true) (λ _, Some true) in
  let w := OS.World ∅ [] 0 in
  AIAgent._apply_changes self o [("automations.yaml", "- id: a1")] w
  = (inr (AIAgent.Results true [] (Some "Apply")), w).
Proof.
  intros self o w. by apply (unknown_mode_does_nothing self o _ w).
Defined.

(** ** [AIAgent._apply_changes]: what an Apply cycle leaves behind *)

(** Backups of different files taken at time stamps without a dot have
    different paths. *)
Lemma backup_of_inj self k1 k2 t1 t2 :
  Py.lacks "." t1 = true → Py.lacks "." t2 = true →
  Spec.backup_of self k1 t1 = Spec.backup_of self k2 t2 → k1 = k2.
Proof.
  intros H1 H2. unfold Spec.backup_of, OS.joinpath. intros E.
  do 2 apply append_inv_head in E.
  apply (f_equal ConfigManager.original_name) in E.
  by rewrite !original_name_of_backup in E.
Qed.

(** The backup directory [/config/.ai_backups] holds no live file with
    a plain name. *)
Lemma default_backups_apart self k t k' :
  AIAgent.backup_dir self = "/config/.ai_backups" → OS.plain k' = true →
  Spec.backup_of self k t ≠ Spec.live k'.
Proof.
  intros Hdir Hplain. unfold Spec.backup_of, Spec.live, OS.joinpath.
  rewrite Hdir.
  change ("/config/.ai_backups" +:+ "/" +:+ k +:+ "." +:+ t +:+ ".bak")
    with ("/config" +:+ "/" +:+ ".ai_backups" +:+ "/" +:+ k +:+ "." +:+ t +:+ ".bak").
  intros E. do 2 apply append_inv_head in E. subst k'.
  unfold OS.plain in Hplain. rewrite lacks_append in Hplain.
  apply andb_prop in Hplain as [_ Hl]. apply andb_prop in Hl as [_ Hl].
  by rewrite lacks_append in Hl.
Qed.

Lemma apply_file_outcome self o acc k c w :
  AIAgent.mode self = "apply" →
  ∃ acc' w1,
    AIAgent.apply_file self o acc (k, c) w = (inr acc', w1)
    ∧ (OS.ask o (Spec.prompt k) = false → w1 = w)
    ∧ (OS.ask o (Spec.prompt k) = true → OS.fs w1 !! Spec.live k = Some c)
    ∧ (∀ p, p ≠ Spec.live k →
            (∀ n, p ≠ Spec.backup_of self k (OS.clock o n)) →
            OS.fs w1 !! p = OS.fs w !! p)
    ∧ (OS.ask o (Spec.prompt k) = true → AIAgent.backup_enabled self = true →
       ∀ old, OS.fs w !! Spec.live k = Some old →
              Spec.backup_of self k (OS.clock o (OS.ticks w)) ≠ Spec.live k →
              OS.fs w1 !! Spec.backup_of self k (OS.clock o (OS.ticks w)) = Some old).
Proof.
  intros Hm. destruct (OS.ask o (Spec.prompt k)) eqn:Hask.
  - destruct (AIAgent.backup_enabled self) eqn:Hb;
      [destruct (OS.fs w !! Spec.live k) as [old|] eqn:Hold|].
    + eexists _, _. split; [by eapply apply_file_confirmed_backup|].
      split; [done|]. split; [intros _; apply lookup_insert_eq|]. split.
      * intros p Hp Hn. simpl. rewrite lookup_insert_ne by done.
        rewrite lookup_insert_ne; [done|]. intros E. by apply (Hn (OS.ticks w)).
      * intros _ _ old' [= <-] Hne. simpl.
        rewrite lookup_insert_ne by done. apply lookup_insert_eq.
    + eexists _, _. split; [apply apply_file_confirmed_plain; auto|].
      split; [done|]. split; [intros _; apply lookup_insert_eq|]. split.
      * intros p Hp _. simpl. by rewrite lookup_insert_ne.
      * by intros _ _ old' [=].
    + eexists _, _. split; [apply apply_file_confirmed_plain; auto|].
      split; [done|]. split; [intros _; apply lookup_insert_eq|]. split.
      * intros p Hp _. simpl. by rewrite lookup_insert_ne.
      * done.
  - exists acc, w. split; [by apply apply_file_declined|]. done.
Qed.

Lemma for_each_apply_outcome self o files :
  AIAgent.mode self = "apply" →
  NoDup (Dict.keys files) →
  Forall (λ k, OS.plain k = true) (Dict.keys files) →
  (∀ k n k', OS.plain k' = true →
             Spec.backup_of self k (OS.clock o n) ≠ Spec.live k') →
  ∀ acc w, ∃ acc' w',
    OS.for_each (AIAgent.apply_file self o) files acc w = (inr acc', w')
    ∧ (∀ k c, (k, c) ∈ files →
         OS.fs w' !! Spec.live k
         = if OS.ask o (Spec.prompt k) then Some c else OS.fs w !! Spec.live k)
    ∧ (∀ p, (∀ k, k ∈ Dict.keys files →
                  p ≠ Spec.live k ∧ ∀ n, p ≠ Spec.backup_of self k (OS.clock o n)) →
            OS.fs w' !! p = OS.fs w !! p)
    ∧ (AIAgent.backup_enabled self = true →
       (∀ n, Py.lacks "." (OS.clock o n) = true) →
       ∀ k c old, (k, c) ∈ files → OS.ask o (Spec.prompt k) = true →
                  OS.fs w !! Spec.live k = Some old →
                  ∃ n, OS.fs w' !! Spec.backup_of self k (OS.clock o n) = Some old).
Proof.
  intros Hm Hnd Hplain Hapart. unfold Dict.keys in *.
  induction files as [|[k c] files IH]; intros acc w.
  - exists acc, w. split; [done|]. split; [by intros k c ?%elem_of_nil|].
    split; [done|]. by intros _ _ k c old ?%elem_of_nil.
  - rewrite fmap_cons in Hnd, Hplain. simpl in Hnd, Hplain.
    apply NoDup_cons in Hnd as [Hk Hnd]. apply Forall_cons in Hplain as [Hpk Hplain].
    destruct (apply_file_outcome self o acc k c w Hm)
      as (acc1 & w1 & Hrun1 & Hno & Hyes & Hframe1 & Hbackup1).
    destruct (IH Hnd Hplain acc1 w1) as (acc' & w' & Hrun & Hlive & Hframe & Hbackup).
    exists acc', w'.
    change (OS.for_each ?f ((k, c) :: files) acc)
      with (f acc (k, c) ≫= OS.for_each f files).
    rewrite (bind_eq _ _ _ _ _ Hrun1). split; [done|].
    assert (Hrest_key : ∀ k', k' ∈ files.*1 → k' ≠ k) by (by intros k' Hk' ->).
    assert (Hrest_plain : ∀ k', k' ∈ files.*1 → OS.plain k' = true).
    { intros k' Hk'. rewrite Forall_forall in Hplain. by apply Hplain. }
    assert (Hhead_kept : OS.fs w' !! Spec.live k = OS.fs w1 !! Spec.live k).
    { apply Hframe. intros k' Hk'. split.
      - intros E%live_inj. by apply (Hrest_key k').
      - intros n E. by apply (Hapart k' n k). }
    split; [|split; [|intros Hb Hdot]].
    + intros k0 c0 [[= -> ->]|Hin]%elem_of_cons.
      * rewrite Hhead_kept. destruct (OS.ask o (Spec.prompt k)) eqn:Hask.
        -- by apply Hyes.
        -- by rewrite Hno.
      * rewrite (Hlive k0 c0 Hin).
        destruct (OS.ask o (Spec.prompt k0)); [done|].
        assert (Hk0 : k0 ∈ files.*1) by (apply list_elem_of_fmap; by exists (k0, c0)).
        apply Hframe1.
        -- intros E%live_inj. by apply (Hrest_key k0).
        -- intros n E. by apply (Hapart k n k0); [apply Hrest_plain|].
    + intros p Hp. rewrite Hframe.
      * apply Hframe1; apply (Hp k); by left.
      * intros k' Hk'. apply Hp. by right.
    + intros k0 c0 old [[= -> ->]|Hin]%elem_of_cons Hask Hold.
      * exists (OS.ticks w). rewrite Hframe.
        -- apply Hbackup1; try done. by apply Hapart.
        -- intros k' Hk'. split.
           ++ by apply Hapart, Hrest_plain.
           ++ intros n E. apply backup_of_inj in E; [|done..].
              by apply (Hrest_key k').
      * assert (Hk0 : k0 ∈ files.*1) by (apply list_elem_of_fmap; by exists (k0, c0)).
        apply (Hbackup Hb Hdot k0 c0 old Hin Hask).
        rewrite <- Hold. apply Hframe1.
        -- intros E%live_inj. by apply (Hrest_key k0).
        -- intros n E. by apply (Hapart k n k0); [apply Hrest_plain|].
Qed.

(** X8: what an Apply cycle leaves behind, for plain file names and a
    backup directory that holds no live file.  Every file the user
    confirmed holds its new content, every file the user declined is as
    it was, and every other path but the backups of the files at hand
    is unchanged; and with backups enabled and time stamps without a
    dot, the content a confirmed file had before the cycle is in a
    backup of that file after it. *)
Theorem apply_cycle_outcome
    (self : AIAgent.t) (o : OS.oracle) (files : list (string * string))
    (w : OS.world) :
  AIAgent.mode self = "apply" →
  NoDup (Dict.keys files) →
  Forall (λ k, OS.plain k = true) (Dict.keys files) →
  (∀ k n k', OS.plain k' = true →
             Spec.backup_of self k (OS.clock o n) ≠ Spec.live k') →
  ∃ results w',
    AIAgent._apply_changes self o files w = (inr results, w')
    ∧ (∀ k c, (k, c) ∈ files →
         OS.fs w' !! Spec.live k
         = if OS.ask o (Spec.prompt k) then Some c else OS.fs w !! Spec.live k)
    ∧ (∀ p, (∀ k, k ∈ Dict.keys files →
                  p ≠ Spec.live k ∧ ∀ n, p ≠ Spec.backup_of self k (OS.clock o n)) →
            OS.fs w' !! p = OS.fs w !! p)
    ∧ (AIAgent.backup_enabled self = true →
       (∀ n, Py.lacks "." (OS.clock o n) = true) →
       ∀ k c old, (k, c) ∈ files → OS.ask o (Spec.prompt k) = true →
                  OS.fs w !! Spec.live k = Some old →
                  ∃ n, OS.fs w' !! Spec.backup_of self k (OS.clock o n) = Some old).
Proof.
  intros Hm Hnd Hplain Hapart.
  destruct (for_each_apply_outcome self o files Hm Hnd Hplain Hapart [] w)
    as (acc' & w' & Hrun & Hrest).
  eexists _, w'. split; [|exact Hrest].
  unfold AIAgent._apply_changes. by rewrite (bind_eq _ _ _ _ _ Hrun).
Qed.

Lemma apply_cycle_outcome_witness :
  let self := AIAgent.Make "apply" true true "/config/ai_sandbox"
                ["automations.yaml"; "scripts.yaml"] "/config/.ai_backups" in
  let o := OS.Oracle (λ _, "20260101_120000")
             (λ q, String.eqb q "Opravdu prepsat scripts.yaml?") (λ _, Some false) in
  let files := [("automations.yaml", "- id: a1"); ("scripts.yaml", "hello: {}")] in
  let w := OS.World {["/config/automations.yaml" := "[]";
                      "/config/scripts.yaml" := "old: {}"]} [] 0 in
  ∃ w', (AIAgent._apply_changes self o files w).2 = w'
        ∧ OS.fs w' !! "/config/automations.yaml" = Some "[]"
        ∧ OS.fs w' !! "/config/scripts.yaml" = Some "hello: {}"
        ∧ ∃ n, OS.fs w' !! Spec.backup_of self "scripts.yaml" (OS.clock o n)
               = Some "old: {}".
Proof.
  intros self o files w.
  destruct (apply_cycle_outcome self o files w) as (results & w' & Hrun & Hlive & _ & Hb).
  - reflexivity.
  - apply NoDup_cons. split; [|apply NoDup_singleton].
    by intros [=]%list_elem_of_singleton.
  - repeat constructor.
  - intros k n k'. by apply default_backups_apart.
  - exists w'. split; [by rewrite Hrun|]. split.
    + apply (Hlive "automations.yaml" "- id: a1"). apply list_elem_of_here.
    + split.
      * apply (Hlive "scripts.yaml" "hello: {}").
        apply list_elem_of_further, list_elem_of_here.
      * apply (Hb eq_refl (λ _, eq_refl) "scripts.yaml" "hello: {}" "old: {}");
          [apply list_elem_of_further, list_elem_of_here | done | done].
Defined.

Lemma count_copies_app l l' :
  Spec.count_copies (l ++ l') = Spec.count_copies l + Spec.count_copies l'.
Proof.
  induction l as [|e l IH]; [done|]. destruct e; simpl; by rewrite ?IH.
Qed.

Lemma apply_file_copies self o acc k c w :
  AIAgent.mode self = "apply" →
  ∃ acc' w1 evs,
    AIAgent.apply_file self o acc (k, c) w = (inr acc', w1)
    ∧ OS.log w1 = OS.log w ++ evs
    ∧ Spec.count_copies evs
      = if OS.ask o (Spec.prompt k) && AIAgent.backup_enabled self
           && Spec.live_exists w k
        then 1 else 0.
Proof.
  intros Hm. unfold Spec.live_exists.
  destruct (OS.ask o (Spec.prompt k)) eqn:Hask.
  - destruct (AIAgent.backup_enabled self) eqn:Hb;
      [destruct (OS.fs w !! Spec.live k) as [old|] eqn:Hold|].
    + eexists _, _, _. split; [by eapply apply_file_confirmed_backup|].
      split; [done|]. rewrite bool_decide_eq_true_2 by by eexists. done.
    + eexists _, _, _. split; [apply apply_file_confirmed_plain; auto|].
      split; [done|]. rewrite bool_decide_eq_false_2 by by intros [? ?]. done.
    + eexists _, _, _. split; [apply apply_file_confirmed_plain; auto|].
      split; [done|]. done.
  - exists acc, w, []. split; [by apply apply_file_declined|].
    split; [by rewrite app_nil_r | done].
Qed.

(** X9: the backups of an Apply cycle, for plain file names and a backup
    directory that holds no live file: one copy is made for each file
    that the user confirmed and whose live file existed when the cycle
    began, when backups are enabled, and none at all when they are
    disabled. *)
Theorem apply_cycle_backups
    (self : AIAgent.t) (o : OS.oracle) (files : list (string * string))
    (w : OS.world) :
  AIAgent.mode self = "apply" →
  NoDup (Dict.keys files) →
  Forall (λ k, OS.plain k = true) (Dict.keys files) →
  (∀ k n k', OS.plain k' = true →
             Spec.backup_of self k (OS.clock o n) ≠ Spec.live k') →
  Spec.count_copies
    (Spec.new_events w (AIAgent._apply_changes self o files w).2)
  = if AIAgent.backup_enabled self
    then length (List.filter (λ kv, Spec.live_exists w kv.1)
                   (Spec.confirmed o files))
    else 0.
Proof.
  intros Hm Hnd Hplain Hapart.
  assert (Hloop : ∀ acc w0,
             (∀ k, k ∈ Dict.keys files →
                   OS.fs w0 !! Spec.live k = OS.fs w !! Spec.live k) →
             ∃ acc' w' evs,
               OS.for_each (AIAgent.apply_file self o) files acc w0 = (inr acc', w')
               ∧ OS.log w' = OS.log w0 ++ evs
               ∧ Spec.count_copies evs
                 = if AIAgent.backup_enabled self
                   then length (List.filter (λ kv, Spec.live_exists w kv.1)
                                  (Spec.confirmed o files))
                   else 0).
  { unfold Dict.keys in *.
    induction files as [|[k c] files IH]; intros acc w0 Hsame.
    - exists acc, w0, []. rewrite app_nil_r. split; [done|]. split; [done|].
      by destruct (AIAgent.backup_enabled self).
    - rewrite fmap_cons in Hnd, Hplain. simpl in Hnd, Hplain.
      apply NoDup_cons in Hnd as [Hk Hnd].
      apply Forall_cons in Hplain as [Hpk Hplain].
      destruct (apply_file_copies self o acc k c w0 Hm)
        as (acc1 & w1 & evs1 & Hrun1 & Hlog1 & Hcount1).
      destruct (apply_file_outcome self o acc k c w0 Hm)
        as (acc1' & w1' & Hrun1' & _ & _ & Hframe1 & _).
      rewrite Hrun1 in Hrun1'. injection Hrun1' as <- <-.
      destruct (IH Hnd Hplain acc1 w1) as (acc' & w' & evs & Hrun & Hlog & Hcount).
      { intros k' Hk'. rewrite <- (Hsame k') by by right.
        apply Hframe1.
        - intros E%live_inj. subst k'. done.
        - intros n E. apply (Hapart k n k'); [|done].
          rewrite Forall_forall in Hplain. by apply Hplain. }
      exists acc', w', (evs1 ++ evs).
      change (OS.for_each ?f ((k, c) :: files) acc)
        with (f acc (k, c) ≫= OS.for_each f files).
      rewrite (bind_eq _ _ _ _ _ Hrun1). split; [done|].
      split; [by rewrite Hlog, Hlog1, app_assoc|].
      rewrite count_copies_app, Hcount, Hcount1.
      assert (Hex : Spec.live_exists w0 k = Spec.live_exists w k).
      { unfold Spec.live_exists. rewrite (Hsame k); [done | by left]. }
      rewrite Hex. unfold Spec.confirmed. simpl.
      destruct (OS.ask o (Spec.prompt k)); simpl;
        destruct (AIAgent.backup_enabled self); simpl; try done.
      by destruct (Spec.live_exists w k). }
  destruct (Hloop [] w (λ _ _, eq_refl)) as (acc' & w' & evs & Hrun & Hlog & Hcount).
  unfold AIAgent._apply_changes. rewrite (bind_eq _ _ _ _ _ Hrun). simpl.
  by rewrite (new_events_app _ _ _ Hlog).
Qed.

Lemma apply_cycle_backups_witness :
  let self := AIAgent.Make "apply" true true "/config/ai_sandbox"
                ["automations.yaml"; "scripts.yaml"] "/config/.ai_backups" in
  let o := OS.Oracle (λ _, "20260101_120000") (λ _, true) (λ _, Some true) in
  let files := [("automations.yaml", "- id: a1"); ("scripts.yaml", "hello: {}")] in
  let w := OS.World {["/config/scripts.yaml" := "old: {}"]} [] 0 in
  Spec.count_copies
    (Spec.new_events w (AIAgent._apply_changes self o files w).2) = 1.
Proof.
  intros self o files w.
  rewrite (apply_cycle_backups self o files w).
  - reflexivity.
  - reflexivity.
  - apply NoDup_cons. split; [|apply NoDup_singleton].
    by intros [=]%list_elem_of_singleton.
  - repeat constructor.
  - intros k n k'. by apply default_backups_apart.
Defined.

(** ** [ConfigManager]: more on backups, reading and writing *)

Lemma restore_backup_run self o backup_path w bytes :
  let original_name := ConfigManager.original_name (OS.name backup_path) in
  let target := OS.joinpath (ConfigManager.config_dir self) original_name in
  ConfigManager.is_file_allowed self original_name = true →
  OS.fs w !! target = None →
  OS.fs w !! backup_path = Some bytes →
  ConfigManager.restore_backup self o backup_path w
  = (inr target,
     OS.World (<[target := bytes]> (OS.fs w))
       (OS.log w ++ [OS.Copy backup_path target]) (OS.ticks w)).
Proof.
  intros original_name target Hallowed E Hbytes.
  unfold ConfigManager.restore_backup. fold original_name.
  rewrite Hallowed. simpl. fold target.
  rewrite (bind_eq _ _ _ _ _ (exists_None _ _ E)).
  unfold mbind, OS.M_bind, mret, OS.M_ret, OS.copy. simpl.
  by rewrite Hbytes.
Qed.

Lemma restore_backup_run_saving self o backup_path w current :
  let original_name := ConfigManager.original_name (OS.name backup_path) in
  let target := OS.joinpath (ConfigManager.config_dir self) original_name in
  let safety :=
    OS.joinpath (ConfigManager.backup_dir self)
      (original_name +:+ "." +:+ OS.clock o (OS.ticks w) +:+ ".bak") in
  let w1 := OS.World (<[safety := current]> (OS.fs w))
              (OS.log w ++ [OS.Copy target safety]) (S (OS.ticks w)) in
  ConfigManager.is_file_allowed self original_name = true →
  OS.fs w !! target = Some current →
  ConfigManager.restore_backup self o backup_path w
  = (OS.copy backup_path target ≫= λ _, mret target) w1.
Proof.
  intros original_name target safety w1 Hallowed E.
  pose proof (create_backup_some self o original_name w current E) as Hb.
  unfold ConfigManager.restore_backup. fold original_name.
  rewrite Hallowed. simpl. fold target.
  rewrite (bind_eq _ _ _ _ _ (exists_Some _ _ _ E)).
  unfold mbind at 1, OS.M_bind at 1. unfold mbind at 1, OS.M_bind at 1.
  rewrite Hb. done.
Qed.

(** X10: a backup made by [create_backup] is brought back by
    [restore_backup].  When the name is allow-listed and plain, the
    time stamp has no dot or separator, and the backup file still holds
    the bytes it was made with, restoring it at another second puts
    those bytes onto the live path, whatever happened to the live file
    in between; and what stood there before the restore is itself in a
    fresh backup. *)
Theorem backup_then_restore_round_trip
    (self : ConfigManager.t) (o : OS.oracle) (filename : string)
    (w0 w : OS.world) (old : string) :
  let live := OS.joinpath (ConfigManager.config_dir self) filename in
  let made := OS.joinpath (ConfigManager.backup_dir self)
                (filename +:+ "." +:+ OS.clock o (OS.ticks w0) +:+ ".bak") in
  ConfigManager.is_file_allowed self filename = true →
  Py.lacks "/" filename = true →
  Py.lacks "/" (OS.clock o (OS.ticks w0)) = true →
  Py.lacks "." (OS.clock o (OS.ticks w0)) = true →
  OS.fs w0 !! live = Some old →
  OS.fs w !! made = Some old →
  OS.clock o (OS.ticks w) ≠ OS.clock o (OS.ticks w0) →
  (ConfigManager.create_backup self o filename w0).1 = inr (Some made)
  ∧ OS.fs (ConfigManager.create_backup self o filename w0).2 !! made = Some old
  ∧ ∃ w',
      ConfigManager.restore_backup self o made w = (inr live, w')
      ∧ OS.fs w' !! live = Some old
      ∧ ∀ current,
          OS.fs w !! live = Some current →
          OS.fs (ConfigManager.create_backup self o filename w).2
            !! OS.joinpath (ConfigManager.backup_dir self)
                 (filename +:+ "." +:+ OS.clock o (OS.ticks w) +:+ ".bak")
          = Some current.
Proof.
  intros live made Hallowed Hsep Htsep Htdot Hold Hmade Hsecond.
  rewrite (create_backup_some self o filename w0 old Hold). simpl.
  split; [done|]. split; [apply lookup_insert_eq|].
  assert (Hname : ConfigManager.original_name (OS.name made) = filename)
    by by apply original_name_of_backup_path.
  destruct (OS.fs w !! live) as [current|] eqn:E.
  - pose proof (restore_backup_run_saving self o made w current) as Hrun.
    simpl in Hrun. rewrite Hname in Hrun. specialize (Hrun Hallowed E).
    rewrite Hrun. unfold mbind, OS.M_bind, mret, OS.M_ret, OS.copy. simpl.
    rewrite lookup_insert_ne.
    + fold made. rewrite Hmade. eexists. split; [done|]. simpl.
      split; [apply lookup_insert_eq|]. intros ? [= <-].
      rewrite (create_backup_some self o filename w current E). simpl.
      apply lookup_insert_eq.
    + intros Esame. by apply backup_path_inj in Esame.
  - pose proof (restore_backup_run self o made w old) as Hrun.
    simpl in Hrun. rewrite Hname in Hrun. specialize (Hrun Hallowed E Hmade).
    rewrite Hrun. eexists. split; [done|]. simpl.
    split; [apply lookup_insert_eq | done].
Qed.

Lemma backup_then_restore_round_trip_witness :
  let self := ConfigManager.Make "/config" "/config/.ai_backups"
                "/config/ai_sandbox" ["scripts.yaml"] in
  let o := OS.Oracle (λ n, if (n =? 0)%nat then "20260101_120000"
                           else "20260101_120500")
             (λ _, true) (λ _, Some true) in
  let w0 := OS.World {["/config/scripts.yaml" := "old"]} [] 0 in
  let w1 := (ConfigManager.create_backup self o "scripts.yaml" w0).2 in
  let w := (OS.write_text "/config/scripts.yaml" "broken" w1).2 in
  ∃ w', ConfigManager.restore_backup self o
          "/config/.ai_backups/scripts.yaml.20260101_120000.bak" w
        = (inr "/config/scripts.yaml", w')
        ∧ OS.fs w' !! "/config/scripts.yaml" = Some "old".
Proof.
  intros self o w0 w1 w.
  destruct (backup_then_restore_round_trip self o "scripts.yaml" w0 w "old")
    as (_ & _ & w' & Hrun & Hlive & _); try reflexivity.
  - by vm_compute.
  - by exists w'.
Defined.



(** ** Dictionaries: reading after writing *)

Section GetPut.
Context {V : Type}.
Implicit Types (d : list (string * V)) (k : string) (v : V).

Lemma get_put_eq k v d : Dict.get k (Dict.put k v d) = Some v.
Proof.
  induction d as [|[k' v'] d IH]; simpl.
  - by rewrite String.eqb_refl.
  - destruct (String.eqb k k') eqn:E; simpl.
    + by rewrite String.eqb_refl.
    + by rewrite E.
Qed.

Lemma get_put_ne k k' v d : k ≠ k' → Dict.get k (Dict.put k' v d) = Dict.get k d.
Proof.
  intros Hne. induction d as [|[k0 v0] d IH]; simpl.
  - by apply String.eqb_neq in Hne as ->.
  - destruct (String.eqb k' k0) eqn:E; simpl.
    + apply String.eqb_eq in E. subst k0.
      by apply String.eqb_neq in Hne as ->.
    + by rewrite IH.
Qed.
End GetPut.

(** ** [YAMLHandler.merge]: what the merged mapping holds *)

Section GetKeys.
Context {V : Type}.
Implicit Types (d : list (string * V)) (k : string) (v : V).

Lemma get_None k d : k ∉ Dict.keys d → Dict.get k d = None.
Proof.
  unfold Dict.keys. induction d as [|[k' v'] d IH]; [done|].
  rewrite fmap_cons. intros Hk. apply not_elem_of_cons in Hk as [Hne Hk].
  simpl in *. apply String.eqb_neq in Hne as ->. by apply IH.
Qed.

Lemma get_Some_keys k v d : Dict.get k d = Some v → k ∈ Dict.keys d.
Proof.
  intros Hget. destruct (decide (k ∈ Dict.keys d)) as [|Hk]; [done|].
  by rewrite (get_None _ _ Hk) in Hget.
Qed.

Lemma get_Some_elem k v d : Dict.get k d = Some v → (k, v) ∈ d.
Proof.
  induction d as [|[k' v'] d IH]; simpl; [done|].
  destruct (String.eqb k k') eqn:E.
  - apply String.eqb_eq in E. intros [= ->]. subst. by left.
  - intros H. right. by apply IH.
Qed.

Lemma put_fresh k v d : k ∉ Dict.keys d → Dict.put k v d = d ++ [(k, v)].
Proof.
  unfold Dict.keys. induction d as [|[k' v'] d IH]; [done|].
  rewrite fmap_cons. intros Hk. apply not_elem_of_cons in Hk as [Hne Hk].
  simpl in *. apply String.eqb_neq in Hne as ->. by rewrite IH.
Qed.

Lemma put_elem k v d x : x ∈ Dict.put k v d → x = (k, v) ∨ x ∈ d.
Proof.
  induction d as [|[k' v'] d IH]; simpl.
  - intros ->%list_elem_of_singleton. by left.
  - destruct (String.eqb k k').
    + intros [->|?]%elem_of_cons; [by left | right; by right].
    + intros [->|Hx]%elem_of_cons; [right; by left|].
      destruct (IH Hx) as [|]; [by left | right; by right].
Qed.
End GetKeys.

(** One pass of the loop of [merge], read at a key. *)
Lemma merge_loop_get rec k items :
  NoDup items.*1 → ∀ r,
  Dict.get k (Doc.merge_loop rec r items)
  = match Dict.get k items with
    | None => Dict.get k r
    | Some v =>
        match Dict.get k r, v with
        | Some (Doc.Map b), Doc.Map _ => Some (Doc.Map (rec b v))
        | _, _ => Some v
        end
    end.
Proof.
  induction items as [|[k0 v0] items IH]; intros Hnd r; [done|].
  rewrite fmap_cons in Hnd. apply NoDup_cons in Hnd as [Hk0 Hnd].
  set (x := match Dict.get k0 r, v0 with
            | Some (Doc.Map b), Doc.Map _ => Doc.Map (rec b v0)
            | _, _ => v0
            end).
  assert (Hstep : Doc.merge_loop rec r ((k0, v0) :: items)
                  = Doc.merge_loop rec (Dict.put k0 x r) items).
  { unfold x. simpl. by destruct (Dict.get k0 r) as [[| |]|], v0. }
  rewrite Hstep, (IH Hnd). simpl.
  destruct (String.eqb k k0) eqn:E.
  - apply String.eqb_eq in E. subst k0.
    rewrite (get_None k items) by done. rewrite get_put_eq.
    unfold x. by destruct (Dict.get k r) as [[| |]|], v0.
  - apply String.eqb_neq in E. by rewrite get_put_ne.
Qed.

(** X15: what [merge] holds at a key: the value of [base] where [update]
    has none; the merge of the two values where both are mappings; the
    value of [update] otherwise. *)
Theorem merge_at_key (base update : list (string * Doc.value)) (k : string) :
  NoDup (Dict.keys update) →
  Dict.get k (Doc.merge base update)
  = match Dict.get k update with
    | None => Dict.get k base
    | Some (Doc.Map u) =>
        match Dict.get k base with
        | Some (Doc.Map b) => Some (Doc.Map (Doc.merge b u))
        | _ => Some (Doc.Map u)
        end
    | Some v => Some v
    end.
Proof.
  intros Hnd. unfold Doc.merge at 1. simpl.
  rewrite merge_loop_get by done.
  destruct (Dict.get k update) as [[| |u]|]; try done;
    by destruct (Dict.get k base) as [[| |]|].
Qed.

Lemma merge_at_key_witness :
  let base := [("a", Doc.Map [("x", Doc.Scalar (Doc.Int 1))]);
               ("b", Doc.Scalar (Doc.Int 2))] in
  let update := [("a", Doc.Map [("y", Doc.Scalar (Doc.Int 3))]);
                 ("c", Doc.Scalar Doc.Null)] in
  Dict.get "a" (Doc.merge base update)
  = Some (Doc.Map [("x", Doc.Scalar (Doc.Int 1)); ("y", Doc.Scalar (Doc.Int 3))]).
Proof.
  intros base update.
  rewrite (merge_at_key base update "a"); [reflexivity|].
  unfold update, Dict.keys. simpl. compute_done.
Defined.

Lemma filter_fresh_snoc (ks : list string) k l :
  k ∉ l →
  List.filter (λ x, negb (str_in x (ks ++ [k]))) l
  = List.filter (λ x, negb (str_in x ks)) l.
Proof.
  intros Hk. apply List.filter_ext_in. intros x Hx. f_equal.
  apply list_elem_of_In in Hx.
  unfold str_in. rewrite existsb_app. simpl.
  destruct (String.eqb x k) eqn:E; [|by rewrite !orb_false_r].
  apply String.eqb_eq in E. by subst.
Qed.

Lemma merge_loop_keys rec items :
  NoDup items.*1 → ∀ r,
  Dict.keys (Doc.merge_loop rec r items)
  = Dict.keys r ++ List.filter (λ k, negb (str_in k (Dict.keys r))) items.*1.
Proof.
  induction items as [|[k0 v0] items IH]; intros Hnd r.
  - simpl. by rewrite app_nil_r.
  - rewrite fmap_cons in Hnd. apply NoDup_cons in Hnd as [Hk0 Hnd].
    set (x := match Dict.get k0 r, v0 with
              | Some (Doc.Map b), Doc.Map _ => Doc.Map (rec b v0)
              | _, _ => v0
              end).
    assert (Hstep : Doc.merge_loop rec r ((k0, v0) :: items)
                    = Doc.merge_loop rec (Dict.put k0 x r) items).
    { unfold x. simpl. by destruct (Dict.get k0 r) as [[| |]|], v0. }
    rewrite Hstep, (IH Hnd). rewrite fmap_cons. simpl.
    destruct (keys_put k0 x r) as [E|[Hfresh E]]; rewrite E.
    + assert (Hin : str_in k0 (Dict.keys r) = true).
      { destruct (str_in k0 (Dict.keys r)) eqn:Hs; [done|]. exfalso.
        assert (Hn : k0 ∉ Dict.keys r).
        { intros H. apply str_in_elem_of in H. congruence. }
        pose proof (f_equal length E) as Hlen.
        rewrite (put_fresh _ _ _ Hn) in Hlen. unfold Dict.keys in Hlen.
        rewrite !length_fmap, length_app in Hlen. simpl in Hlen. lia. }
      by rewrite Hin.
    + assert (Hin : str_in k0 (Dict.keys r) = false).
      { destruct (str_in k0 (Dict.keys r)) eqn:Hs; [|done].
        by apply str_in_elem_of in Hs. }
      rewrite Hin. simpl. rewrite filter_fresh_snoc by done.
      by rewrite <- app_assoc.
Qed.

(** X16: [merge] keeps the keys of [base], in their order, and puts the
    keys that only [update] has after them, in the order of [update]. *)
Theorem merge_keys_order (base update : list (string * Doc.value)) :
  NoDup (Dict.keys update) →
  Dict.keys (Doc.merge base update)
  = Dict.keys base
    ++ List.filter (λ k, negb (str_in k (Dict.keys base))) (Dict.keys update).
Proof. intros Hnd. unfold Doc.merge. simpl. by apply merge_loop_keys. Qed.

Lemma merge_keys_order_witness :
  let base := [("a", Doc.Scalar (Doc.Int 1)); ("b", Doc.Scalar (Doc.Int 2))] in
  let update := [("c", Doc.Scalar (Doc.Int 3)); ("a", Doc.Scalar (Doc.Int 4))] in
  Dict.keys (Doc.merge base update) = ["a"; "b"; "c"].
Proof.
  intros base update.
  rewrite (merge_keys_order base update); [reflexivity|].
  unfold update, Dict.keys. simpl. compute_done.
Defined.

Lemma merge_loop_step rec r k0 v0 items :
  Doc.merge_loop rec r ((k0, v0) :: items)
  = Doc.merge_loop rec
      (Dict.put k0 (match Dict.get k0 r, v0 with
                    | Some (Doc.Map b), Doc.Map _ => Doc.Map (rec b v0)
                    | _, _ => v0
                    end) r) items.
Proof. simpl. by destruct (Dict.get k0 r) as [[| |]|], v0. Qed.

Lemma put_values (Q : Doc.value → Prop) k v (d : list (string * Doc.value)) :
  Q v → Forall (λ kv, Q kv.2) d → Forall (λ kv, Q kv.2) (Dict.put k v d).
Proof.
  intros Hv Hd. apply Forall_forall. intros x Hx.
  destruct (put_elem _ _ _ _ Hx) as [->|Hin]; [done|].
  rewrite Forall_forall in Hd. by apply Hd.
Qed.

Lemma merge_loop_wf rec items :
  Forall (λ kv, Doc.wf kv.2
                ∧ ∀ b, Doc.wf (Doc.Map b) → Doc.wf (Doc.Map (rec b kv.2))) items →
  ∀ r, Doc.wf (Doc.Map r) → Doc.wf (Doc.Map (Doc.merge_loop rec r items)).
Proof.
  induction items as [|[k0 v0] items IH]; intros Hitems r Hr; [done|].
  apply Forall_cons in Hitems as [[Hv0 Hrec] Hitems]. simpl in Hv0, Hrec.
  rewrite merge_loop_step. apply IH; [done|].
  apply wf_map in Hr as [Hnd Hvals]. apply wf_map. split.
  - by apply (keys_put_NoDup k0 _ r).
  - apply put_values; [|done].
    destruct (Dict.get k0 r) as [[a|q|b]|] eqn:Hget; try done.
    destruct v0 as [a|q|u]; try done.
    apply Hrec. apply get_Some_elem in Hget.
    rewrite Forall_forall in Hvals. apply (Hvals _ Hget).
Qed.

Lemma merge_into_wf v :
  Doc.wf v → ∀ b, Doc.wf (Doc.Map b) → Doc.wf (Doc.Map (Doc.merge_into b v)).
Proof.
  induction v as [s|q _|items IH] using value_ind; intros Hwf b Hb; [done..|].
  apply wf_map in Hwf as [Hnd Hvals].
  change (Doc.merge_into b (Doc.Map items)) with (Doc.merge_loop Doc.merge_into b items).
  apply merge_loop_wf; [|done].
  rewrite Forall_forall in IH, Hvals. apply Forall_forall.
  intros kv Hin. split; [by apply Hvals|].
  intros b' Hb'. apply IH; [done | by apply Hvals | done].
Qed.

(** X17: the merge of two mappings that have each key once, at every
    depth, is such a mapping. *)
Theorem merge_keeps_keys_unique (base update : list (string * Doc.value)) :
  Doc.wf (Doc.Map base) → Doc.wf (Doc.Map update) →
  Doc.wf (Doc.Map (Doc.merge base update)).
Proof. intros Hb Hu. unfold Doc.merge. by apply merge_into_wf. Qed.

Lemma merge_keeps_keys_unique_witness :
  let base := [("a", Doc.Map [("x", Doc.Scalar (Doc.Int 1))]);
               ("b", Doc.Scalar (Doc.Int 2))] in
  let update := [("a", Doc.Map [("y", Doc.Scalar (Doc.Int 3))]);
                 ("c", Doc.Scalar Doc.Null)] in
  Doc.wf (Doc.Map (Doc.merge base update)).
Proof.
  intros base update. apply merge_keeps_keys_unique.
  - simpl. repeat split; compute_done.
  - simpl. repeat split; compute_done.
Defined.

Lemma merge_loop_fresh rec items :
  NoDup items.*1 → ∀ r,
  (∀ k, k ∈ items.*1 → k ∉ Dict.keys r) →
  Doc.merge_loop rec r items = r ++ items.
Proof.
  induction items as [|[k0 v0] items IH]; intros Hnd r Hdisj.
  - simpl. by rewrite app_nil_r.
  - rewrite fmap_cons in Hnd, Hdisj. apply NoDup_cons in Hnd as [Hk0 Hnd].
    simpl in Hk0, Hdisj.
    assert (Hfresh : k0 ∉ Dict.keys r) by (apply Hdisj; by left).
    rewrite merge_loop_step, (get_None _ _ Hfresh), (put_fresh _ _ _ Hfresh).
    rewrite IH; [by rewrite <- app_assoc | done |].
    intros k Hk. unfold Dict.keys. rewrite fmap_app. simpl.
    intros [Hin|Hin]%elem_of_app.
    + by apply (Hdisj k); [right|].
    + apply list_elem_of_singleton in Hin. by subst.
Qed.

(** X18: the empty mapping is neutral for [merge], on both sides. *)
Theorem merge_with_empty (d : list (string * Doc.value)) :
  NoDup (Dict.keys d) → Doc.merge [] d = d ∧ Doc.merge d [] = d.
Proof.
  intros Hnd. split; [|done]. unfold Doc.merge. simpl.
  rewrite merge_loop_fresh; [done | done |].
  intros k _. apply not_elem_of_nil.
Qed.

Lemma merge_with_empty_witness :
  let d := [("a", Doc.Map [("x", Doc.Scalar (Doc.Int 1))]);
            ("b", Doc.Scalar (Doc.Int 2))] in
  Doc.merge [] d = d ∧ Doc.merge d [] = d.
Proof.
  intros d. apply merge_with_empty. unfold d, Dict.keys. simpl. compute_done.
Defined.

(** The loop gives [r] back when [r] already holds, at every key of
    [items], what the loop would put there. *)
Lemma merge_loop_fixed rec r items :
  Forall (λ kv, ∃ x, Dict.get kv.1 r = Some x
                     ∧ match x, kv.2 with
                       | Doc.Map y, Doc.Map _ => rec y kv.2 = y
                       | _, _ => x = kv.2
                       end) items →
  Doc.merge_loop rec r items = r.
Proof.
  induction items as [|[k0 v0] items IH]; intros Hitems; [done|].
  apply Forall_cons in Hitems as [(x & Hget & Hx) Hitems]. simpl in Hget, Hx.
  rewrite merge_loop_step, Hget.
  assert (Hput : match x, v0 with
                 | Doc.Map b, Doc.Map _ => Doc.Map (rec b v0)
                 | _, _ => v0
                 end = x).
  { destruct x as [a|q|y], v0 as [a'|q'|u]; try done. by rewrite Hx. }
  destruct x as [a|q|y]; rewrite Hput, put_get_same by done; by apply IH.
Qed.

Lemma merge_into_twice v :
  Doc.wf v → ∀ b, Doc.merge_into (Doc.merge_into b v) v = Doc.merge_into b v.
Proof.
  induction v as [s|q _|items IH] using value_ind; intros Hwf b; [done..|].
  apply wf_map in Hwf as [Hnd Hvals].
  change (Doc.merge_into ?r (Doc.Map items)) with (Doc.merge_loop Doc.merge_into r items).
  apply merge_loop_fixed.
  rewrite Forall_forall in IH, Hvals. apply Forall_forall.
  intros [k v] Hin. simpl.
  rewrite merge_loop_get by done.
  rewrite (get_lookup items k v Hnd Hin).
  pose proof (Hvals _ Hin) as Hv. simpl in Hv.
  destruct (Dict.get k b) as [[a|q|y]|], v as [a'|q'|u];
    try (eexists; split; [reflexivity|]; simpl; try done).
  - by apply (merge_into_same (Doc.Map u)).
  - by apply (merge_into_same (Doc.Map u)).
  - by apply (IH _ Hin).
  - by apply (merge_into_same (Doc.Map u)).
Qed.

(** X19: merging the same update a second time changes nothing. *)
Theorem merge_update_twice (base update : list (string * Doc.value)) :
  Doc.wf (Doc.Map update) →
  Doc.merge (Doc.merge base update) update = Doc.merge base update.
Proof. intros Hu. unfold Doc.merge. by apply merge_into_twice. Qed.

Lemma merge_update_twice_witness :
  let base := [("a", Doc.Map [("x", Doc.Scalar (Doc.Int 1))]);
               ("b", Doc.Scalar (Doc.Int 2))] in
  let update := [("a", Doc.Map [("y", Doc.Scalar (Doc.Int 3))]);
                 ("c", Doc.Map [("z", Doc.Scalar Doc.Null)])] in
  Doc.merge (Doc.merge base update) update = Doc.merge base update.
Proof.
  intros base update. apply merge_update_twice.
  simpl. repeat split; compute_done.
Defined.

Lemma merge_on_objects_refines_witness :
  let h : gmap positive Obj.obj :=
    {[ 1%positive := Obj.ODict [("a", Obj.VRef 3%positive);
                                ("b", Obj.VScalar (Doc.Int 1))];
       2%positive := Obj.ODict [("a", Obj.VRef 4%positive);
                                ("c", Obj.VScalar Doc.Null)];
       3%positive := Obj.ODict [("x", Obj.VScalar (Doc.Int 1))];
       4%positive := Obj.ODict [("y", Obj.VScalar (Doc.Int 2))] ]} in
  let tb := [("a", Doc.Map [("x", Doc.Scalar (Doc.Int 1))]);
             ("b", Doc.Scalar (Doc.Int 1))] in
  let tu := [("a", Doc.Map [("y", Doc.Scalar (Doc.Int 2))]);
             ("c", Doc.Scalar Doc.Null)] in
  ∃ h' m, Obj.merge 2 h 1%positive 2%positive = Some (h', m)
          ∧ Obj.repr h' (Obj.VRef m) (Doc.Map (Doc.merge tb tu)).
Proof.
  intros h tb tu. apply (merge_on_objects_refines h 1%positive 2%positive tb tu 2).
  - exists 1%positive, [("a", Obj.VRef 3%positive); ("b", Obj.VScalar (Doc.Int 1))].
    split; [reflexivity|]. split; [reflexivity|]. simpl.
    split; [|by repeat split]. split; [reflexivity|].
    exists 3%positive, [("x", Obj.VScalar (Doc.Int 1))]. by repeat split.
  - exists 2%positive, [("a", Obj.VRef 4%positive); ("c", Obj.VScalar Doc.Null)].
    split; [reflexivity|]. split; [reflexivity|]. simpl.
    split; [|by repeat split]. split; [reflexivity|].
    exists 4%positive, [("y", Obj.VScalar (Doc.Int 2))]. by repeat split.
  - simpl. lia.
Defined.
